(** * Lowering of the XLA dialect to the Standard dialect

    A shallow embedding of
    [tensorflow/compiler/mlir/xla/transforms/legalize_to_standard.cc]:
    the two comparison patterns, the iota pattern, the pattern list and the
    pass entry point, together with the properties of the specification that
    concern them.

    Conventions of the model.
    - [int64_t] values are integers of [Z]; the C++ operators [/] and [%]
      are [Z.quot] and [Z.rem] (truncation toward zero), and a division by
      zero is a fault of the run, not a value. The element count is held
      in an [int64_t]: it is the product of the sizes reduced to the
      two's-complement 64-bit range, as the hardware computes it.
    - The counter [int i] of the fill loop is a 32-bit [int]: an increment
      past [INT_MAX] is a fault of the run. The counter of the stride loop
      runs over the indices of the shape, 0 to [dimension]; ranks are
      taken to fit an [int].
    - An [APInt] is a bit width and the unsigned value of its bits.
    - The pattern rewriter is the log of the replacements it was asked to
      perform; a pattern that leaves the log as it found it has not touched
      the operation. *)

From Stdlib Require Import ZArith List String Bool Lia.
Import ListNotations.

Local Open Scope Z_scope.

(** ** Faults and the execution monad *)

(** What can go wrong in a run of a pattern: an integer division whose
    divisor is zero, an assertion of the host IR library, an [int] counter
    incremented past its largest value, or a request for memory that cannot
    be granted. *)
Inductive Fault : Set :=
| DivisionByZero
| AssertionFailure
| SignedOverflow
| AllocationFailure.

Inductive exec (A : Type) : Type :=
| Done (a : A)
| Abort (f : Fault).

Arguments Done {A} a.
Arguments Abort {A} f.

Definition exec_bind {A B : Type} (c : exec A) (k : A -> exec B) : exec B :=
  match c with
  | Done a => k a
  | Abort f => Abort f
  end.

Declare Scope exec_scope.
Delimit Scope exec_scope with exec.
Notation "x <- c ;; k" := (exec_bind c (fun x => k))
  (at level 61, c at next level, right associativity) : exec_scope.

(** [a / b] on [int64_t]. *)
Definition div64 (a b : Z) : exec Z :=
  if b =? 0 then Abort DivisionByZero else Done (Z.quot a b).

(** [a % b] on [int64_t]. *)
Definition rem64 (a b : Z) : exec Z :=
  if b =? 0 then Abort DivisionByZero else Done (Z.rem a b).

Definition INT_MAX : Z := 2 ^ 31 - 1.

Definition INT64_MAX : Z := 2 ^ 63 - 1.

(** The value an [int64_t] holds after a computation whose exact result is
    [z]: [z] reduced to the range from [-2^63] to [2^63 - 1]. *)
Definition wrap_int64 (z : Z) : Z := (z + 2 ^ 63) mod 2 ^ 64 - 2 ^ 63.

(** [i++] on an [int]. *)
Definition incr_int (i : Z) : exec Z :=
  if INT_MAX <=? i then Abort SignedOverflow else Done (i + 1).

(** ** The IR data model *)

Inductive ElementType : Set :=
| IntegerType (width : positive)
| FloatType (width : positive)
| ComplexType (element : ElementType)
| IndexType.

Definition isa_IntegerType (t : ElementType) : bool :=
  match t with IntegerType _ => true | _ => false end.

Definition isa_FloatType (t : ElementType) : bool :=
  match t with FloatType _ => true | _ => false end.

(** Modelled from the spec: [Type::getIntOrFloatBitWidth] of the host IR
    library, the fixed bitwidth of an integer or float element kind; any
    other kind has none. *)
Definition getIntOrFloatBitWidth (t : ElementType) : exec Z :=
  match t with
  | IntegerType w => Done (Z.pos w)
  | FloatType w => Done (Z.pos w)
  | _ => Abort AssertionFailure
  end.

(** Modelled from the spec: the [ShapedType] of the host IR library, an
    element kind and an ordered sequence of dimension sizes. *)
Record ShapedType : Set := {
  getElementType : ElementType;
  getShape : list Z
}.

Definition TensorType : Set := ShapedType.

Definition product (ds : list Z) : Z := fold_right Z.mul 1 ds.

(** Modelled from the spec: [ShapedType::getNumElements],
    [total = d0*d1*...*dn-1], computed in an [int64_t] as its result type
    has it; dimension sizes are non-negative, which the library asserts. *)
Definition getNumElements (t : ShapedType) : exec Z :=
  if forallb (fun d => 0 <=? d) (getShape t)
  then Done (wrap_int64 (product (getShape t)))
  else Abort AssertionFailure.

(** Modelled from the spec: [ShapedType::getDimSize], [shape[idx]]; an
    index which is not one of the shape's is refused by an assertion. *)
Definition getDimSize (t : ShapedType) (idx : Z) : exec Z :=
  if idx <? 0 then Abort AssertionFailure
  else match nth_error (getShape t) (Z.to_nat idx) with
       | Some d => Done d
       | None => Abort AssertionFailure
       end.

Record Value : Set := {
  value_id : nat;
  getType : ShapedType
}.

Module CmpIPredicate.
Inductive t : Set :=
| eq | ne | slt | sle | sgt | sge | ult | ule | ugt | uge.
End CmpIPredicate.

Module CmpFPredicate.
Inductive t : Set :=
| AlwaysFalse
| OEQ | OGT | OGE | OLT | OLE | ONE | ORD
| UEQ | UGT | UGE | ULT | ULE | UNE | UNO
| AlwaysTrue
| NumPredicates.

Definition eqb (a b : t) : bool :=
  match a, b with
  | AlwaysFalse, AlwaysFalse | OEQ, OEQ | OGT, OGT | OGE, OGE
  | OLT, OLT | OLE, OLE | ONE, ONE | ORD, ORD
  | UEQ, UEQ | UGT, UGT | UGE, UGE | ULT, ULT | ULE, ULE
  | UNE, UNE | UNO, UNO | AlwaysTrue, AlwaysTrue
  | NumPredicates, NumPredicates => true
  | _, _ => false
  end.
End CmpFPredicate.

(** Modelled from the spec: LLVM's [APInt], a scalar of a fixed bitwidth.
    [APInt(numBits, val)] takes [val] as an unsigned 64-bit word and keeps
    its low [numBits] bits. *)
Record APInt : Set := {
  BitWidth : Z;
  VAL : Z
}.

Definition APInt_of (numBits : Z) (val : Z) : APInt :=
  {| BitWidth := numBits; VAL := (val mod 2 ^ 64) mod 2 ^ numBits |}.

(** [DenseIntElementsAttr::get(type, values)]: a shape plus the flat,
    row-major sequence of its scalars. *)
Record DenseIntElementsAttr : Set := {
  dense_type : ShapedType;
  dense_values : list APInt
}.

Record CompareOp : Set := {
  lhs : Value;
  rhs : Value;
  comparison_direction : string
}.

Record IotaOp : Set := {
  IotaOp_getType : ShapedType;
  iota_dimension : Z            (* [op.iota_dimension().getSExtValue()] *)
}.

Inductive Operation : Set :=
| xla_hlo_CompareOp (op : CompareOp)
| xla_hlo_IotaOp (op : IotaOp)
| CmpIOp (predicate : CmpIPredicate.t) (lhs rhs : Value)
| CmpFOp (predicate : CmpFPredicate.t) (lhs rhs : Value)
| ConstantOp (value : DenseIntElementsAttr)
| OtherOp (name : string) (operands : list Value).

(** ** The pattern rewriter *)

Inductive PatternMatchResult : Set :=
| matchFailure
| matchSuccess.

(** The rewriter, as the sequence of replacements requested so far: each
    entry is the replaced operation and the operation that takes its
    place. *)
Definition PatternRewriter : Set := list (Operation * Operation).

Definition replaceOpWithNewOp (rewriter : PatternRewriter)
    (op new_op : Operation) : PatternRewriter :=
  rewriter ++ [(op, new_op)].

(** ** [llvm::StringSwitch] *)

(** Modelled from the spec: LLVM's [StringSwitch], the lookup of a string
    in a fixed table. The switch holds the string and the result found so
    far; the first case equal to the string gives the result, and
    [Default] gives the fallback when no case did. *)
Module StringSwitch.
Section Switch.
Context {T : Type}.

Record t : Type := { Str : string; Result : option T }.

Definition make (S : string) : t := {| Str := S; Result := None |}.

(** [Case(S, Value)]: the first case that equals the string decides. *)
Definition Case (S : string) (Value : T) (sw : t) : t :=
  match Result sw with
  | Some _ => sw
  | None =>
      if String.eqb (Str sw) S
      then {| Str := Str sw; Result := Some Value |}
      else sw
  end.

Definition Default (Value : T) (sw : t) : T :=
  match Result sw with
  | Some r => r
  | None => Value
  end.
End Switch.
Arguments t : clear implicits.
End StringSwitch.

(** Method chaining, [x.f(a)] of the source written [x |> f a]. *)
Notation "x |> f" := (f x) (at level 50, left associativity, only parsing).

(** ** The comparison patterns *)

(** [s1 != s2] on [ArrayRef<int64_t>]. *)
Definition shape_ne (s1 s2 : list Z) : bool :=
  if list_eq_dec Z.eq_dec s1 s2 then false else true.

(** [CompareIConvert::matchAndRewrite]. *)
Definition CompareIConvert_matchAndRewrite (op : CompareOp)
    (rewriter : PatternRewriter) : exec (PatternMatchResult * PatternRewriter) :=
  let lhs := lhs op in
  let rhs := rhs op in
  let lhs_type : TensorType := getType lhs in
  let rhs_type : TensorType := getType rhs in
  (* Broadcasting not supported by this rewrite. *)
  if shape_ne (getShape lhs_type) (getShape rhs_type)
  then Done (matchFailure, rewriter)
  else
  if negb (isa_IntegerType (getElementType lhs_type))
     || negb (isa_IntegerType (getElementType rhs_type))
  then Done (matchFailure, rewriter)
  else
  let comparison_direction := comparison_direction op in
  let compare_predicate : option CmpIPredicate.t :=
    StringSwitch.make comparison_direction
      |> StringSwitch.Case "EQ" (Some CmpIPredicate.eq)
      |> StringSwitch.Case "NE" (Some CmpIPredicate.ne)
      |> StringSwitch.Case "LT" (Some CmpIPredicate.slt)
      |> StringSwitch.Case "LE" (Some CmpIPredicate.sle)
      |> StringSwitch.Case "GT" (Some CmpIPredicate.sgt)
      |> StringSwitch.Case "GE" (Some CmpIPredicate.sge)
      |> StringSwitch.Default None in
  match compare_predicate with
  | None => Done (matchFailure, rewriter)
  | Some predicate =>
      Done (matchSuccess,
            replaceOpWithNewOp rewriter (xla_hlo_CompareOp op)
              (CmpIOp predicate lhs rhs))
  end.

(** [CompareFConvert::matchAndRewrite]. *)
Definition CompareFConvert_matchAndRewrite (op : CompareOp)
    (rewriter : PatternRewriter) : exec (PatternMatchResult * PatternRewriter) :=
  let lhs := lhs op in
  let rhs := rhs op in
  let lhs_type : TensorType := getType lhs in
  let rhs_type : TensorType := getType rhs in
  (* Broadcasting not supported by this rewrite. *)
  if shape_ne (getShape lhs_type) (getShape rhs_type)
  then Done (matchFailure, rewriter)
  else
  if negb (isa_FloatType (getElementType lhs_type))
     || negb (isa_FloatType (getElementType rhs_type))
  then Done (matchFailure, rewriter)
  else
  let comparison_direction := comparison_direction op in
  let compare_predicate : CmpFPredicate.t :=
    StringSwitch.make comparison_direction
      |> StringSwitch.Case "EQ" CmpFPredicate.OEQ
      |> StringSwitch.Case "NE" CmpFPredicate.UNE
      |> StringSwitch.Case "LT" CmpFPredicate.OLT
      |> StringSwitch.Case "LE" CmpFPredicate.OLE
      |> StringSwitch.Case "GT" CmpFPredicate.OGT
      |> StringSwitch.Case "GE" CmpFPredicate.OGE
      |> StringSwitch.Default CmpFPredicate.NumPredicates in
  if CmpFPredicate.eqb compare_predicate CmpFPredicate.NumPredicates
  then Done (matchFailure, rewriter)
  else
    Done (matchSuccess,
          replaceOpWithNewOp rewriter (xla_hlo_CompareOp op)
            (CmpFOp compare_predicate lhs rhs)).

(** ** The iota pattern *)

(** The loop
    [for (int i = 0; i <= dimension; i++)
       increase_stride /= output_type.getDimSize(i);]
    with [n] iterations still to run and the counter at [i]. *)
Fixpoint stride_loop (output_type : ShapedType) (n : nat) (i : Z)
    (increase_stride : Z) : exec Z :=
  match n with
  | O => Done increase_stride
  | S n' =>
      (d <- getDimSize output_type i ;;
       increase_stride' <- div64 increase_stride d ;;
       stride_loop output_type n' (i + 1) increase_stride')%exec
  end.

(** [values.reserve(output_size)] of LLVM's [SmallVector]: the count is
    taken as an unsigned size, so a negative count asks for at least [2^63]
    scalars, which no allocation grants; any other request is taken to be
    granted. *)
Definition reserve (output_size : Z) : exec unit :=
  if output_size <? 0 then Abort AllocationFailure else Done tt.

(** The loop
    [for (int i = 0; i < output_size; i++) {
       int64_t value = (current_value / increase_stride) % max_dim_size;
       values.push_back(APInt(bitwidth, value));
       ++current_value;
     }]
    with [n] positions below [output_size] still to fill and the [int]
    counter at [i]. *)
Fixpoint fill_loop (bitwidth increase_stride max_dim_size : Z) (n : nat)
    (i current_value : Z) (values : list APInt) : exec (list APInt) :=
  match n with
  | O => Done values
  | S n' =>
      (q <- div64 current_value increase_stride ;;
       value <- rem64 q max_dim_size ;;
       i' <- incr_int i ;;
       fill_loop bitwidth increase_stride max_dim_size n' i'
         (current_value + 1) (values ++ [APInt_of bitwidth value]))%exec
  end.

(** [ConvertIotaOp::matchAndRewrite]. *)
Definition ConvertIotaOp_matchAndRewrite (op : IotaOp)
    (rewriter : PatternRewriter) : exec (PatternMatchResult * PatternRewriter) :=
  let output_type := IotaOp_getType op in
  (* TODO(prakalps): Handle FP and ComplexType iota ops. *)
  if negb (isa_IntegerType (getElementType output_type))
  then Done (matchFailure, rewriter)
  else
    (output_size <- getNumElements output_type ;;
     let dimension := iota_dimension op in
     max_dim_size <- getDimSize output_type dimension ;;
     bitwidth <- getIntOrFloatBitWidth (getElementType output_type) ;;
     _ <- reserve output_size ;;
     increase_stride <-
       stride_loop output_type (Z.to_nat (dimension + 1)) 0 output_size ;;
     values <-
       fill_loop bitwidth increase_stride max_dim_size
         (Z.to_nat output_size) 0 0 [] ;;
     Done (matchSuccess,
           replaceOpWithNewOp rewriter (xla_hlo_IotaOp op)
             (ConstantOp {| dense_type := output_type;
                            dense_values := values |})))%exec.

(** ** The pattern list *)

(** A pattern is offered any operation; [OpRewritePattern<OpTy>] lets only
    operations of kind [OpTy] through to [matchAndRewrite]. *)
Definition Pattern : Type :=
  Operation -> PatternRewriter -> exec (PatternMatchResult * PatternRewriter).

Definition CompareIConvert : Pattern :=
  fun op rewriter =>
    match op with
    | xla_hlo_CompareOp c => CompareIConvert_matchAndRewrite c rewriter
    | _ => Done (matchFailure, rewriter)
    end.

Definition CompareFConvert : Pattern :=
  fun op rewriter =>
    match op with
    | xla_hlo_CompareOp c => CompareFConvert_matchAndRewrite c rewriter
    | _ => Done (matchFailure, rewriter)
    end.

Definition ConvertIotaOp : Pattern :=
  fun op rewriter =>
    match op with
    | xla_hlo_IotaOp c => ConvertIotaOp_matchAndRewrite c rewriter
    | _ => Done (matchFailure, rewriter)
    end.

(** [PopulateXlaToStdPatterns]; [generated] stands for the patterns of
    [generated_legalize_to_standard.inc], which [populateWithGenerated]
    adds first. *)
Definition PopulateXlaToStdPatterns (generated patterns : list Pattern)
    : list Pattern :=
  (patterns ++ generated) ++ [CompareFConvert; CompareIConvert; ConvertIotaOp].

(** ** The fixpoint driver *)

Inductive DriverState : Set :=
| scanning
| converged.

(** Modelled from the spec: the offer of one operation to the rules, part
    of the driver [applyPatternsGreedily] of the host IR library. The rules
    are tried in registration order and the first that matches wins; the
    answer is the operations that take the place of [op], if any. *)
Fixpoint apply_first_match (patterns : list Pattern) (op : Operation)
    : exec (option (list Operation)) :=
  match patterns with
  | [] => Done None
  | p :: rest =>
      match p op [] with
      | Abort f => Abort f
      | Done (matchSuccess, rewriter) => Done (Some (map snd rewriter))
      | Done (matchFailure, _) => apply_first_match rest op
      end
  end.

(** Modelled from the spec: one full sweep of the driver
    [applyPatternsGreedily] over the operations currently in the function
    body; it answers the new body and the number of replacements. *)
Fixpoint sweep (patterns : list Pattern) (body : list Operation)
    : exec (list Operation * nat) :=
  match body with
  | [] => Done ([], O)
  | op :: rest =>
      (r <- apply_first_match patterns op ;;
       tail <- sweep patterns rest ;;
       match r with
       | None => Done (op :: fst tail, snd tail)
       | Some new_ops => Done (new_ops ++ fst tail, S (snd tail))
       end)%exec
  end.

Record DriverResult : Set := {
  final_state : DriverState;
  final_body : list Operation;
  replacements : nat
}.

(** Modelled from the spec: the driver [applyPatternsGreedily] of the host
    IR library, a state machine that starts in [scanning], sweeps again
    while a sweep replaced something, and is [converged] after a sweep with
    zero replacements. [max_sweeps] is the ceiling on the number of sweeps;
    when it is used up the driver stops, still [scanning]. [replaced] counts
    the replacements made so far. *)
Fixpoint applyPatternsGreedily (max_sweeps : nat) (body : list Operation)
    (patterns : list Pattern) (replaced : nat) : exec DriverResult :=
  match max_sweeps with
  | O => Done {| final_state := scanning; final_body := body;
                 replacements := replaced |}
  | S k =>
      (r <- sweep patterns body ;;
       match snd r with
       | O => Done {| final_state := converged; final_body := fst r;
                      replacements := replaced |}
       | S _ => applyPatternsGreedily k (fst r) patterns
                  (replaced + snd r)%nat
       end)%exec
  end.

(** [LegalizeToStandard::runOnFunction]. *)
Definition runOnFunction (generated : list Pattern) (max_sweeps : nat)
    (body : list Operation) : exec DriverResult :=
  let patterns := PopulateXlaToStdPatterns generated [] in
  applyPatternsGreedily max_sweeps body patterns O.

(** ** The specification's closed forms *)

(** The shape entry at index [dim], [maxAlongDim = shape[dim]]. *)
Definition dim_size (shape : list Z) (dim : Z) : Z :=
  nth (Z.to_nat dim) shape 0.

(** [stride = total / (d0*d1*...*ddim)]. *)
Definition stride_closed_form (shape : list Z) (dim : Z) : Z :=
  product shape / product (firstn (Z.to_nat dim + 1) shape).

(** The product of all dimension sizes after [dim]. *)
Definition trailing_product (shape : list Z) (dim : Z) : Z :=
  product (skipn (Z.to_nat dim + 1) shape).

(** The value the specification puts at flat index [k]. *)
Definition iota_value (shape : list Z) (dim : Z) (k : Z) : Z :=
  (k / trailing_product shape dim) mod dim_size shape dim.

(** The coordinate tuples of a shape in row-major order: index 0 has all
    coordinates 0 and the last coordinate varies fastest. *)
Fixpoint row_major (shape : list Z) : list (list Z) :=
  match shape with
  | [] => [[]]
  | d :: ds =>
      flat_map (fun c => map (cons (Z.of_nat c)) (row_major ds))
        (seq 0 (Z.to_nat d))
  end.

(** The coordinate along [dim] of the flat position [k]. *)
Definition coordinate (shape : list Z) (dim : Z) (k : Z) : Z :=
  nth (Z.to_nat dim) (nth (Z.to_nat k) (row_major shape) []) 0.

(** The tables of sections 4.2 and 4.3. *)
Definition directions : list string :=
  ["EQ"; "NE"; "LT"; "LE"; "GT"; "GE"]%string.

Definition integer_predicate_table : list (string * CmpIPredicate.t) :=
  [("EQ", CmpIPredicate.eq); ("NE", CmpIPredicate.ne);
   ("LT", CmpIPredicate.slt); ("LE", CmpIPredicate.sle);
   ("GT", CmpIPredicate.sgt); ("GE", CmpIPredicate.sge)]%string.

Definition float_predicate_table : list (string * CmpFPredicate.t) :=
  [("EQ", CmpFPredicate.OEQ); ("NE", CmpFPredicate.UNE);
   ("LT", CmpFPredicate.OLT); ("LE", CmpFPredicate.OLE);
   ("GT", CmpFPredicate.OGT); ("GE", CmpFPredicate.OGE)]%string.

(** ** Sample operations *)

Definition tensor (t : ElementType) (shape : list Z) : ShapedType :=
  {| getElementType := t; getShape := shape |}.

Definition i32 : ElementType := IntegerType 32.
Definition i8 : ElementType := IntegerType 8.
Definition f32 : ElementType := FloatType 32.

Definition arg (n : nat) (t : ShapedType) : Value :=
  {| value_id := n; getType := t |}.

Definition iota (t : ShapedType) (dim : Z) : IotaOp :=
  {| IotaOp_getType := t; iota_dimension := dim |}.

Definition compare (a b : Value) (direction : string) : CompareOp :=
  {| lhs := a; rhs := b; comparison_direction := direction |}.

(** ** Derived forms used by the statements *)

(** The predicate the switch of the integer pattern selects. *)
Definition integer_switch (direction : string) : option CmpIPredicate.t :=
  StringSwitch.make direction
    |> StringSwitch.Case "EQ" (Some CmpIPredicate.eq)
    |> StringSwitch.Case "NE" (Some CmpIPredicate.ne)
    |> StringSwitch.Case "LT" (Some CmpIPredicate.slt)
    |> StringSwitch.Case "LE" (Some CmpIPredicate.sle)
    |> StringSwitch.Case "GT" (Some CmpIPredicate.sgt)
    |> StringSwitch.Case "GE" (Some CmpIPredicate.sge)
    |> StringSwitch.Default None.

(** The predicate the switch of the float pattern selects. *)
Definition float_switch (direction : string) : CmpFPredicate.t :=
  StringSwitch.make direction
    |> StringSwitch.Case "EQ" CmpFPredicate.OEQ
    |> StringSwitch.Case "NE" CmpFPredicate.UNE
    |> StringSwitch.Case "LT" CmpFPredicate.OLT
    |> StringSwitch.Case "LE" CmpFPredicate.OLE
    |> StringSwitch.Case "GT" CmpFPredicate.OGT
    |> StringSwitch.Case "GE" CmpFPredicate.OGE
    |> StringSwitch.Default CmpFPredicate.NumPredicates.

(** The scalars the specification asks for, each at the given bitwidth, in
    flat order. *)
Definition iota_values (bitwidth : Z) (shape : list Z) (dim : Z) : list APInt :=
  map (fun j => APInt_of bitwidth (iota_value shape dim (Z.of_nat j)))
    (seq 0 (Z.to_nat (product shape))).

(** A static shape: every size is a non-negative [int64_t]. *)
Definition static_int64_shape (shape : list Z) : Prop :=
  Forall (fun d => 0 <= d <= INT64_MAX) shape.

(** Exact storage: the pattern replaces the iota by a dense constant that
    holds [(k / stride) mod shape[dim]] itself at every flat index [k]. *)
Definition iota_exact_values (op : IotaOp) : Prop :=
  let output_type := IotaOp_getType op in
  let shape := getShape output_type in
  exists values,
    ConvertIotaOp_matchAndRewrite op [] =
      Done (matchSuccess,
            [(xla_hlo_IotaOp op,
              ConstantOp {| dense_type := output_type;
                            dense_values := values |})]) /\
    forall k, 0 <= k < product shape ->
      exists a, nth_error values (Z.to_nat k) = Some a /\
                VAL a = iota_value shape (iota_dimension op) k.

(** A function body with one operation of each kind, and what the pass
    makes of it. *)
Definition sample_body : list Operation :=
  [ xla_hlo_CompareOp
      (compare (arg 0 (tensor i32 [2; 3])) (arg 1 (tensor i32 [2; 3])) "LT");
    xla_hlo_CompareOp
      (compare (arg 2 (tensor f32 [4])) (arg 3 (tensor f32 [4])) "NE");
    xla_hlo_IotaOp (iota (tensor f32 [2; 3]) 1);
    xla_hlo_IotaOp (iota (tensor i8 [3]) 0);
    OtherOp "std.return" [arg 0 (tensor i32 [2; 3])] ].

Definition sample_legalized : list Operation :=
  [ CmpIOp CmpIPredicate.slt
      (arg 0 (tensor i32 [2; 3])) (arg 1 (tensor i32 [2; 3]));
    CmpFOp CmpFPredicate.UNE (arg 2 (tensor f32 [4])) (arg 3 (tensor f32 [4]));
    xla_hlo_IotaOp (iota (tensor f32 [2; 3]) 1);
    ConstantOp {| dense_type := tensor i8 [3];
                  dense_values := [APInt_of 8 0; APInt_of 8 1; APInt_of 8 2] |};
    OtherOp "std.return" [arg 0 (tensor i32 [2; 3])] ].

(** The stride the pattern computes for a result type and a dimension
    (lines 117 and 125 to 128 of the source): the element count as the
    pattern gets it, divided by the sizes at index 0 to [dimension] in
    turn. *)
Definition computed_stride (output_type : ShapedType) (dimension : Z)
    : exec Z :=
  (output_size <- getNumElements output_type ;;
   stride_loop output_type (Z.to_nat (dimension + 1)) 0 output_size)%exec.

(** The computed stride is the closed form [total / (d0*...*ddim)]. *)
Definition stride_as_closed_form (output_type : ShapedType) (dimension : Z)
    : Prop :=
  computed_stride output_type dimension =
    Done (stride_closed_form (getShape output_type) dimension).

(** No division of the pattern has a zero divisor. *)
Definition no_division_by_zero (op : IotaOp) : Prop :=
  ConvertIotaOp_matchAndRewrite op [] <> Abort DivisionByZero.

(** The scalars the fill loop computes from position [current_value] on. *)
Definition fill_values (bitwidth increase_stride max_dim_size : Z)
    (current_value : Z) (n : nat) : list APInt :=
  map (fun j =>
         APInt_of bitwidth
           (Z.rem (Z.quot (current_value + Z.of_nat j) increase_stride)
              max_dim_size))
    (seq 0 n).

(** The patterns written in this file, in the order in which
    [PopulateXlaToStdPatterns] registers them, without any generated
    pattern. *)
Definition handwritten_patterns : list Pattern :=
  PopulateXlaToStdPatterns [] [].

(** An operation of the Standard dialect, or any operation that is neither
    a comparison nor an iota of the XLA dialect. *)
Definition not_a_target (o : Operation) : Prop :=
  match o with
  | xla_hlo_CompareOp _ | xla_hlo_IotaOp _ => False
  | _ => True
  end.

(** What is left of the targets of the pass once no pattern matches. *)
Definition left_unlegalized (o : Operation) : Prop :=
  match o with
  | xla_hlo_CompareOp c =>
      getShape (getType (lhs c)) <> getShape (getType (rhs c)) \/
      ~ In (comparison_direction c) directions \/
      ((isa_IntegerType (getElementType (getType (lhs c))) = false \/
        isa_IntegerType (getElementType (getType (rhs c))) = false) /\
       (isa_FloatType (getElementType (getType (lhs c))) = false \/
        isa_FloatType (getElementType (getType (rhs c))) = false))
  | xla_hlo_IotaOp i =>
      isa_IntegerType (getElementType (IotaOp_getType i)) = false
  | _ => True
  end.

(** * Properties *)

(** ** [StringSwitch] *)

Section StringSwitchFacts.
Context {T : Type}.
Implicit Types (sw : StringSwitch.t T) (S : string) (v : T).

Lemma Case_Str S v sw :
  StringSwitch.Str (StringSwitch.Case S v sw) = StringSwitch.Str sw.
Proof.
  unfold StringSwitch.Case.
  destruct (StringSwitch.Result sw); [reflexivity|].
  destruct (String.eqb _ _); reflexivity.
Qed.

Lemma Case_decided S v sw r :
  StringSwitch.Result sw = Some r ->
  StringSwitch.Result (StringSwitch.Case S v sw) = Some r.
Proof.
  intros H. unfold StringSwitch.Case. rewrite H. exact H.
Qed.

Lemma Case_hit S v sw :
  StringSwitch.Result sw = None ->
  StringSwitch.Str sw = S ->
  StringSwitch.Result (StringSwitch.Case S v sw) = Some v.
Proof.
  intros H E. unfold StringSwitch.Case. rewrite H.
  rewrite (proj2 (String.eqb_eq _ _) E). reflexivity.
Qed.

Lemma Case_miss S v sw :
  StringSwitch.Str sw <> S ->
  StringSwitch.Result (StringSwitch.Case S v sw) = StringSwitch.Result sw.
Proof.
  intros N. unfold StringSwitch.Case.
  destruct (StringSwitch.Result sw) eqn:E; [exact E|].
  rewrite (proj2 (String.eqb_neq _ _) N). exact E.
Qed.
End StringSwitchFacts.

Lemma not_a_direction (direction : string) :
  ~ In direction directions ->
  direction <> "EQ"%string /\ direction <> "NE"%string /\
  direction <> "LT"%string /\ direction <> "LE"%string /\
  direction <> "GT"%string /\ direction <> "GE"%string.
Proof.
  unfold directions. simpl. intros H.
  repeat split; intros E; apply H; rewrite E; tauto.
Qed.

Lemma integer_switch_unrecognized (direction : string) :
  ~ In direction directions -> integer_switch direction = None.
Proof.
  intros H. apply not_a_direction in H.
  destruct H as (H1 & H2 & H3 & H4 & H5 & H6).
  unfold integer_switch, StringSwitch.Default.
  repeat (rewrite Case_miss; [| rewrite ?Case_Str; simpl; assumption]).
  reflexivity.
Qed.

Lemma float_switch_unrecognized (direction : string) :
  ~ In direction directions ->
  float_switch direction = CmpFPredicate.NumPredicates.
Proof.
  intros H. apply not_a_direction in H.
  destruct H as (H1 & H2 & H3 & H4 & H5 & H6).
  unfold float_switch, StringSwitch.Default.
  repeat (rewrite Case_miss; [| rewrite ?Case_Str; simpl; assumption]).
  reflexivity.
Qed.

Lemma integer_switch_table (direction : string) (p : CmpIPredicate.t) :
  In (direction, p) integer_predicate_table ->
  integer_switch direction = Some p.
Proof.
  unfold integer_predicate_table. simpl.
  intros [E | [E | [E | [E | [E | [E | []]]]]]];
    injection E as <- <-; reflexivity.
Qed.

Lemma float_switch_table (direction : string) (p : CmpFPredicate.t) :
  In (direction, p) float_predicate_table ->
  float_switch direction = p /\ p <> CmpFPredicate.NumPredicates.
Proof.
  unfold float_predicate_table. simpl.
  intros [E | [E | [E | [E | [E | [E | []]]]]]];
    injection E as <- <-; (split; [reflexivity | discriminate]).
Qed.

(** ** The comparison patterns *)

Lemma shape_ne_same (s1 s2 : list Z) : s1 = s2 -> shape_ne s1 s2 = false.
Proof.
  intros E. unfold shape_ne.
  destruct (list_eq_dec Z.eq_dec s1 s2); [reflexivity | contradiction].
Qed.

Lemma shape_ne_differ (s1 s2 : list Z) : s1 <> s2 -> shape_ne s1 s2 = true.
Proof.
  intros N. unfold shape_ne.
  destruct (list_eq_dec Z.eq_dec s1 s2); [contradiction | reflexivity].
Qed.

(** C2: a comparison whose operands have the same shape and integer element
    kinds, and whose direction is one of the six of the table of section
    4.2, is replaced by the integer compare on the same two operands that
    carries the predicate the table gives for the direction (EQ to eq, NE to
    ne, LT, LE, GT, GE to the signed slt, sle, sgt, sge). *)
Theorem CompareIConvert_follows_table
    (op : CompareOp) (rewriter : PatternRewriter) (p : CmpIPredicate.t) :
  getShape (getType (lhs op)) = getShape (getType (rhs op)) ->
  isa_IntegerType (getElementType (getType (lhs op))) = true ->
  isa_IntegerType (getElementType (getType (rhs op))) = true ->
  In (comparison_direction op, p) integer_predicate_table ->
  CompareIConvert_matchAndRewrite op rewriter =
    Done (matchSuccess,
          replaceOpWithNewOp rewriter (xla_hlo_CompareOp op)
            (CmpIOp p (lhs op) (rhs op))).
Proof.
  intros Hshape Hl Hr Hdir.
  unfold CompareIConvert_matchAndRewrite.
  rewrite (shape_ne_same _ _ Hshape).
  rewrite Hl, Hr. simpl negb. simpl orb. cbv iota.
  fold (integer_switch (comparison_direction op)).
  rewrite (integer_switch_table _ _ Hdir). reflexivity.
Qed.

Lemma CompareIConvert_follows_table_witness :
  CompareIConvert_matchAndRewrite
    (compare (arg 0 (tensor i32 [2; 3])) (arg 1 (tensor i32 [2; 3])) "LT") [] =
  Done (matchSuccess,
        [(xla_hlo_CompareOp
            (compare (arg 0 (tensor i32 [2; 3])) (arg 1 (tensor i32 [2; 3])) "LT"),
          CmpIOp CmpIPredicate.slt
            (arg 0 (tensor i32 [2; 3])) (arg 1 (tensor i32 [2; 3])))]).
Proof.
  apply (CompareIConvert_follows_table
           (compare (arg 0 (tensor i32 [2; 3])) (arg 1 (tensor i32 [2; 3])) "LT")
           [] CmpIPredicate.slt).
  - reflexivity.
  - reflexivity.
  - reflexivity.
  - simpl. right. right. left. reflexivity.
Defined.

(** C3: a comparison whose operands have the same shape and float element
    kinds, and whose direction is one of the six of the table of section
    4.3, is replaced by the float compare on the same two operands that
    carries the predicate the table gives for the direction (EQ to OEQ, NE
    to UNE, LT, LE, GT, GE to the ordered OLT, OLE, OGT, OGE). *)
Theorem CompareFConvert_follows_table
    (op : CompareOp) (rewriter : PatternRewriter) (p : CmpFPredicate.t) :
  getShape (getType (lhs op)) = getShape (getType (rhs op)) ->
  isa_FloatType (getElementType (getType (lhs op))) = true ->
  isa_FloatType (getElementType (getType (rhs op))) = true ->
  In (comparison_direction op, p) float_predicate_table ->
  CompareFConvert_matchAndRewrite op rewriter =
    Done (matchSuccess,
          replaceOpWithNewOp rewriter (xla_hlo_CompareOp op)
            (CmpFOp p (lhs op) (rhs op))).
Proof.
  intros Hshape Hl Hr Hdir.
  unfold CompareFConvert_matchAndRewrite.
  rewrite (shape_ne_same _ _ Hshape).
  rewrite Hl, Hr. simpl negb. simpl orb. cbv iota.
  fold (float_switch (comparison_direction op)).
  destruct (float_switch_table _ _ Hdir) as [-> Hp].
  destruct p; try reflexivity. contradiction.
Qed.

Lemma CompareFConvert_follows_table_witness :
  CompareFConvert_matchAndRewrite
    (compare (arg 0 (tensor f32 [4])) (arg 1 (tensor f32 [4])) "NE") [] =
  Done (matchSuccess,
        [(xla_hlo_CompareOp
            (compare (arg 0 (tensor f32 [4])) (arg 1 (tensor f32 [4])) "NE"),
          CmpFOp CmpFPredicate.UNE
            (arg 0 (tensor f32 [4])) (arg 1 (tensor f32 [4])))]).
Proof.
  apply (CompareFConvert_follows_table
           (compare (arg 0 (tensor f32 [4])) (arg 1 (tensor f32 [4])) "NE")
           [] CmpFPredicate.UNE).
  - reflexivity.
  - reflexivity.
  - reflexivity.
  - simpl. right. left. reflexivity.
Defined.

(** C4: when the shapes of the two operands of a comparison differ, the
    integer pattern and the float pattern both answer no-match, and neither
    asks the rewriter for anything: the operation is left as it was. None of
    the three hand-written patterns of the pass replaces it. *)
Theorem compare_shape_mismatch
    (op : CompareOp) (rewriter : PatternRewriter) :
  getShape (getType (lhs op)) <> getShape (getType (rhs op)) ->
  CompareIConvert_matchAndRewrite op rewriter = Done (matchFailure, rewriter) /\
  CompareFConvert_matchAndRewrite op rewriter = Done (matchFailure, rewriter) /\
  apply_first_match [CompareFConvert; CompareIConvert; ConvertIotaOp]
    (xla_hlo_CompareOp op) = Done None.
Proof.
  intros N.
  assert (H : forall rw,
            CompareIConvert_matchAndRewrite op rw = Done (matchFailure, rw) /\
            CompareFConvert_matchAndRewrite op rw = Done (matchFailure, rw)).
  { intros rw.
    unfold CompareIConvert_matchAndRewrite, CompareFConvert_matchAndRewrite.
    rewrite (shape_ne_differ _ _ N). split; reflexivity. }
  split; [apply H|]. split; [apply H|].
  simpl. rewrite (proj2 (H [])), (proj1 (H [])). reflexivity.
Qed.

Lemma compare_shape_mismatch_witness :
  CompareIConvert_matchAndRewrite
    (compare (arg 0 (tensor i32 [2; 3])) (arg 1 (tensor i32 [3])) "EQ") [] =
    Done (matchFailure, []) /\
  CompareFConvert_matchAndRewrite
    (compare (arg 0 (tensor i32 [2; 3])) (arg 1 (tensor i32 [3])) "EQ") [] =
    Done (matchFailure, []) /\
  apply_first_match [CompareFConvert; CompareIConvert; ConvertIotaOp]
    (xla_hlo_CompareOp
       (compare (arg 0 (tensor i32 [2; 3])) (arg 1 (tensor i32 [3])) "EQ")) =
    Done None.
Proof.
  apply (compare_shape_mismatch
           (compare (arg 0 (tensor i32 [2; 3])) (arg 1 (tensor i32 [3])) "EQ") []).
  simpl. discriminate.
Defined.

(** C5: when the direction of a comparison is none of EQ, NE, LT, LE, GT,
    GE, the integer pattern and the float pattern both run to their end
    without a fault, answer no-match, and leave the rewriter as they found
    it, whatever the operands are. None of the three hand-written patterns
    of the pass replaces the operation. *)
Theorem compare_unrecognized_direction
    (op : CompareOp) (rewriter : PatternRewriter) :
  ~ In (comparison_direction op) directions ->
  CompareIConvert_matchAndRewrite op rewriter = Done (matchFailure, rewriter) /\
  CompareFConvert_matchAndRewrite op rewriter = Done (matchFailure, rewriter) /\
  apply_first_match [CompareFConvert; CompareIConvert; ConvertIotaOp]
    (xla_hlo_CompareOp op) = Done None.
Proof.
  intros H.
  assert (HI : forall rw,
            CompareIConvert_matchAndRewrite op rw = Done (matchFailure, rw)).
  { intros rw. unfold CompareIConvert_matchAndRewrite.
    fold (integer_switch (comparison_direction op)).
    rewrite (integer_switch_unrecognized _ H).
    destruct (shape_ne _ _); [reflexivity|].
    destruct (negb _ || negb _); reflexivity. }
  assert (HF : forall rw,
            CompareFConvert_matchAndRewrite op rw = Done (matchFailure, rw)).
  { intros rw. unfold CompareFConvert_matchAndRewrite.
    fold (float_switch (comparison_direction op)).
    rewrite (float_switch_unrecognized _ H).
    destruct (shape_ne _ _); [reflexivity|].
    destruct (negb _ || negb _); reflexivity. }
  split; [apply HI|]. split; [apply HF|].
  simpl. rewrite HF, HI. reflexivity.
Qed.

Lemma compare_unrecognized_direction_witness :
  CompareIConvert_matchAndRewrite
    (compare (arg 0 (tensor i32 [2])) (arg 1 (tensor i32 [2])) "eq") [] =
    Done (matchFailure, []) /\
  CompareFConvert_matchAndRewrite
    (compare (arg 0 (tensor i32 [2])) (arg 1 (tensor i32 [2])) "eq") [] =
    Done (matchFailure, []) /\
  apply_first_match [CompareFConvert; CompareIConvert; ConvertIotaOp]
    (xla_hlo_CompareOp
       (compare (arg 0 (tensor i32 [2])) (arg 1 (tensor i32 [2])) "eq")) =
    Done None.
Proof.
  apply (compare_unrecognized_direction
           (compare (arg 0 (tensor i32 [2])) (arg 1 (tensor i32 [2])) "eq") []).
  simpl. intros [E | [E | [E | [E | [E | [E | []]]]]]]; discriminate E.
Defined.

(** ** The driver *)

Section Driver.
Variable patterns : list Pattern.

Lemma sweep_cons (op : Operation) (rest : list Operation) :
  sweep patterns (op :: rest) =
  (r <- apply_first_match patterns op ;;
   tail <- sweep patterns rest ;;
   match r with
   | None => Done (op :: fst tail, snd tail)
   | Some new_ops => Done (new_ops ++ fst tail, S (snd tail))
   end)%exec.
Proof. reflexivity. Qed.

(** A sweep that replaced nothing answers the body it was given. *)
Lemma sweep_zero_identity (body : list Operation) :
  forall r, sweep patterns body = Done r -> snd r = O -> fst r = body.
Proof.
  induction body as [| op rest IH]; intros r H Hz.
  - simpl in H. injection H as <-. reflexivity.
  - rewrite sweep_cons in H.
    destruct (apply_first_match patterns op) as [[new_ops |] | f];
      simpl in H; try discriminate;
      destruct (sweep patterns rest) as [tail | f]; simpl in H;
      try discriminate; injection H as <-; simpl in *.
    + discriminate.
    + f_equal. apply IH; [reflexivity | assumption].
Qed.

(** An operation no rule matches is still in the body after a sweep. *)
Lemma sweep_keeps_unmatched (o : Operation) (body : list Operation) :
  apply_first_match patterns o = Done None ->
  forall r, sweep patterns body = Done r -> In o body -> In o (fst r).
Proof.
  intros Ho.
  induction body as [| op rest IH]; intros r H Hin.
  - destruct Hin.
  - rewrite sweep_cons in H.
    destruct (apply_first_match patterns op) as [res | f] eqn:E;
      simpl in H; try discriminate.
    destruct (sweep patterns rest) as [tail | f]; simpl in H;
      try discriminate.
    destruct Hin as [-> | Hin].
    + rewrite Ho in E. injection E as <-. injection H as <-.
      simpl. left. reflexivity.
    + specialize (IH tail eq_refl Hin).
      destruct res as [new_ops |]; injection H as <-; simpl.
      * apply in_or_app. right. exact IH.
      * right. exact IH.
Qed.

(** When the driver has converged, one more sweep over its final body
    replaces nothing. *)
Lemma converged_sweep (max_sweeps : nat) :
  forall body replaced r,
    applyPatternsGreedily max_sweeps body patterns replaced = Done r ->
    final_state r = converged ->
    sweep patterns (final_body r) = Done (final_body r, O).
Proof.
  induction max_sweeps as [| k IH]; intros body replaced r H Hc.
  - simpl in H. injection H as <-. discriminate Hc.
  - simpl in H.
    destruct (sweep patterns body) as [[body' n] | f] eqn:E;
      simpl in H; try discriminate.
    destruct n as [| n].
    + injection H as <-. simpl.
      pose proof (sweep_zero_identity body _ E eq_refl) as Hid.
      simpl in Hid. subst body'. exact E.
    + exact (IH _ _ _ H Hc).
Qed.

Lemma converged_needs_a_sweep (max_sweeps : nat) body replaced r :
  applyPatternsGreedily max_sweeps body patterns replaced = Done r ->
  final_state r = converged ->
  (0 < max_sweeps)%nat.
Proof.
  destruct max_sweeps; intros H Hc; [| lia].
  simpl in H. injection H as <-. discriminate Hc.
Qed.

Lemma driver_on_converged (max_sweeps : nat) (body : list Operation)
    (replaced : nat) :
  sweep patterns body = Done (body, O) ->
  (0 < max_sweeps)%nat ->
  applyPatternsGreedily max_sweeps body patterns replaced =
    Done {| final_state := converged; final_body := body;
            replacements := replaced |}.
Proof.
  intros H Hm. destruct max_sweeps as [| k]; [lia|].
  simpl. rewrite H. reflexivity.
Qed.

Lemma driver_keeps_unmatched (o : Operation) (max_sweeps : nat) :
  apply_first_match patterns o = Done None ->
  forall body replaced r,
    applyPatternsGreedily max_sweeps body patterns replaced = Done r ->
    In o body -> In o (final_body r).
Proof.
  intros Ho.
  induction max_sweeps as [| k IH]; intros body replaced r H Hin.
  - simpl in H. injection H as <-. exact Hin.
  - simpl in H.
    destruct (sweep patterns body) as [[body' n] | f] eqn:E;
      simpl in H; try discriminate.
    pose proof (sweep_keeps_unmatched o body Ho _ E Hin) as Hin'.
    simpl in Hin'.
    destruct n as [| n].
    + injection H as <-. exact Hin'.
    + exact (IH _ _ _ H Hin').
Qed.
End Driver.

Lemma apply_first_match_app (ps qs : list Pattern) (op : Operation) :
  apply_first_match ps op = Done None ->
  apply_first_match (ps ++ qs) op = apply_first_match qs op.
Proof.
  induction ps as [| p ps IH]; intros H; [reflexivity|].
  simpl in *.
  destruct (p op []) as [[[|] rw] | f]; try discriminate.
  exact (IH H).
Qed.

Lemma apply_first_match_none (ps : list Pattern) (op : Operation) :
  (forall p, In p ps -> exists rw, p op [] = Done (matchFailure, rw)) ->
  apply_first_match ps op = Done None.
Proof.
  induction ps as [| p ps IH]; intros H; [reflexivity|].
  simpl. destruct (H p (or_introl eq_refl)) as [rw ->].
  apply IH. intros q Hq. apply H. right. exact Hq.
Qed.

(** C8: when the pass has converged on a function body, running it again
    on the body it left, with any sweep ceiling of at least one and in
    particular with the same ceiling, converges with zero replacements and
    answers that same body. *)
Theorem runOnFunction_idempotent
    (generated : list Pattern) (max_sweeps : nat)
    (body : list Operation) (r : DriverResult) :
  runOnFunction generated max_sweeps body = Done r ->
  final_state r = converged ->
  runOnFunction generated max_sweeps (final_body r) =
    Done {| final_state := converged; final_body := final_body r;
            replacements := O |} /\
  forall ceiling, (0 < ceiling)%nat ->
    runOnFunction generated ceiling (final_body r) =
      Done {| final_state := converged; final_body := final_body r;
              replacements := O |}.
Proof.
  unfold runOnFunction. intros H Hc.
  pose proof (converged_sweep _ _ _ _ _ H Hc) as Hs.
  pose proof (converged_needs_a_sweep _ _ _ _ _ H Hc) as Hm.
  split.
  - apply driver_on_converged; assumption.
  - intros ceiling Hpos. apply driver_on_converged; assumption.
Qed.

Lemma runOnFunction_idempotent_witness :
  runOnFunction [] 10 sample_legalized =
    Done {| final_state := converged; final_body := sample_legalized;
            replacements := O |}.
Proof.
  apply (proj1 (runOnFunction_idempotent [] 10 sample_body
                  {| final_state := converged;
                     final_body := sample_legalized;
                     replacements := 3 |}
                  ltac:(vm_compute; reflexivity) eq_refl)).
Defined.

(** ** The iota pattern: unsupported element kinds *)

(** C6: for an iota whose result element kind is not an integer kind (a
    float or complex kind, say), the iota pattern answers no-match and
    leaves the rewriter as it found it. With the pattern list of the pass,
    such an iota is matched by no rule as long as no generated pattern
    matches it, and it is then still in the function body when the pass
    stops, converged or not. *)
Theorem iota_unsupported_kind
    (op : IotaOp) (rewriter : PatternRewriter)
    (generated : list Pattern) (max_sweeps : nat)
    (body : list Operation) :
  isa_IntegerType (getElementType (IotaOp_getType op)) = false ->
  ConvertIotaOp_matchAndRewrite op rewriter = Done (matchFailure, rewriter) /\
  ((forall p, In p generated ->
      exists rw, p (xla_hlo_IotaOp op) [] = Done (matchFailure, rw)) ->
   apply_first_match (PopulateXlaToStdPatterns generated [])
     (xla_hlo_IotaOp op) = Done None /\
   forall r,
     runOnFunction generated max_sweeps body = Done r ->
     In (xla_hlo_IotaOp op) body ->
     In (xla_hlo_IotaOp op) (final_body r)).
Proof.
  intros Hkind.
  assert (Hrule : forall rw,
             ConvertIotaOp_matchAndRewrite op rw = Done (matchFailure, rw)).
  { intros rw. unfold ConvertIotaOp_matchAndRewrite.
    rewrite Hkind. reflexivity. }
  split; [apply Hrule|].
  intros Hgen.
  assert (Hnone : apply_first_match (PopulateXlaToStdPatterns generated [])
                    (xla_hlo_IotaOp op) = Done None).
  { unfold PopulateXlaToStdPatterns. simpl app at 2.
    rewrite apply_first_match_app by (apply apply_first_match_none; exact Hgen).
    simpl. rewrite Hrule. reflexivity. }
  split; [exact Hnone|].
  intros r H Hin. unfold runOnFunction in H.
  exact (driver_keeps_unmatched _ _ _ Hnone _ _ _ H Hin).
Qed.

Lemma iota_unsupported_kind_witness :
  ConvertIotaOp_matchAndRewrite (iota (tensor f32 [2; 3]) 1) [] =
    Done (matchFailure, []) /\
  In (xla_hlo_IotaOp (iota (tensor f32 [2; 3]) 1)) sample_legalized.
Proof.
  pose proof (iota_unsupported_kind (iota (tensor f32 [2; 3]) 1) []
                [] 10 sample_body eq_refl) as [Hrule Hpass].
  split; [exact Hrule|].
  destruct (Hpass (fun p (H : In p []) => match H with end)) as [_ Hkeep].
  apply (Hkeep {| final_state := converged;
                  final_body := sample_legalized;
                  replacements := 3 |}).
  - vm_compute. reflexivity.
  - simpl. right. right. left. reflexivity.
Defined.

(** ** Products of dimension sizes *)

Lemma product_app (a b : list Z) : product (a ++ b) = product a * product b.
Proof.
  induction a as [| d a IH]; simpl.
  - destruct (product b); reflexivity.
  - unfold product in *. simpl. rewrite IH. ring.
Qed.

Lemma product_singleton (d : Z) : product [d] = d.
Proof. unfold product. simpl. apply Z.mul_1_r. Qed.

Lemma product_split (n : nat) (l : list Z) :
  product l = product (firstn n l) * product (skipn n l).
Proof. rewrite <- product_app, firstn_skipn. reflexivity. Qed.

Lemma product_pos (l : list Z) : Forall (fun d => 0 < d) l -> 0 < product l.
Proof.
  induction 1 as [| d l Hd _ IH]; unfold product in *; simpl; [lia | nia].
Qed.

Lemma product_nonneg (l : list Z) :
  Forall (fun d => 0 <= d) l -> 0 <= product l.
Proof.
  induction 1 as [| d l Hd _ IH]; unfold product in *; simpl; [lia | nia].
Qed.

Lemma Forall_skipn {A : Type} (P : A -> Prop) (n : nat) (l : list A) :
  Forall P l -> Forall P (skipn n l).
Proof.
  intros H. rewrite <- (firstn_skipn n l) in H.
  apply Forall_app in H. tauto.
Qed.

Lemma In_firstn {A : Type} (n : nat) (l : list A) (x : A) :
  In x (firstn n l) -> In x l.
Proof.
  intros H. rewrite <- (firstn_skipn n l). apply in_or_app. left. exact H.
Qed.

Lemma skipn_nth_error {A : Type} (l : list A) :
  forall i d, nth_error l i = Some d -> skipn i l = d :: skipn (S i) l.
Proof.
  induction l as [| a l IH]; intros [| i] d H; simpl in H; try discriminate.
  - injection H as ->. reflexivity.
  - rewrite skipn_cons. exact (IH i d H).
Qed.

(** Dividing the product of some non-zero sizes, times [r], by each of the
    sizes in turn leaves [r]. *)
Lemma fold_quot_product (ds : list Z) :
  Forall (fun d => d <> 0) ds ->
  forall r, fold_left Z.quot ds (product ds * r) = r.
Proof.
  induction 1 as [| d ds Hd _ IH]; intros r.
  - simpl. unfold product. simpl. destruct r; reflexivity.
  - cbn [fold_left].
    replace (product (d :: ds) * r) with (product ds * r * d)
      by (unfold product; simpl; ring).
    rewrite Z.quot_mul by exact Hd. apply IH.
Qed.

(** ** The stride loop *)

Section StrideLoop.
Variable output_type : ShapedType.
Let shape := getShape output_type.

Lemma getDimSize_nth (i : nat) (d : Z) :
  nth_error shape i = Some d ->
  getDimSize output_type (Z.of_nat i) = Done d.
Proof.
  intros H. unfold getDimSize.
  destruct (Z.ltb_spec (Z.of_nat i) 0) as [Hlt | _]; [lia|].
  rewrite Nat2Z.id. fold shape. rewrite H. reflexivity.
Qed.

(** As long as it meets no zero size the loop divides by the sizes at
    [i], [i+1], ... in turn. *)
Lemma stride_loop_quot (n : nat) :
  forall i s,
    (i + n <= List.length shape)%nat ->
    Forall (fun d => d <> 0) (firstn n (skipn i shape)) ->
    stride_loop output_type n (Z.of_nat i) s =
      Done (fold_left Z.quot (firstn n (skipn i shape)) s).
Proof.
  induction n as [| n IH]; intros i s Hlen Hnz; [reflexivity|].
  destruct (nth_error shape i) as [d |] eqn:E;
    [| apply nth_error_None in E; lia].
  rewrite (skipn_nth_error _ _ _ E) in Hnz |- *.
  simpl firstn in *. apply Forall_cons_iff in Hnz. destruct Hnz as [Hd Hnz].
  simpl. rewrite (getDimSize_nth _ _ E). simpl.
  unfold div64. rewrite (proj2 (Z.eqb_neq d 0) Hd). simpl.
  replace (Z.of_nat i + 1) with (Z.of_nat (S i)) by lia.
  apply IH; [lia | exact Hnz].
Qed.

(** A zero size among those the loop divides by stops it with a division
    by zero. *)
Lemma stride_loop_zero (n : nat) :
  forall i s,
    (i + n <= List.length shape)%nat ->
    Exists (fun d => d = 0) (firstn n (skipn i shape)) ->
    stride_loop output_type n (Z.of_nat i) s = Abort DivisionByZero.
Proof.
  induction n as [| n IH]; intros i s Hlen Hz.
  - simpl in Hz. inversion Hz.
  - destruct (nth_error shape i) as [d |] eqn:E;
      [| apply nth_error_None in E; lia].
    rewrite (skipn_nth_error _ _ _ E) in Hz.
    simpl firstn in Hz.
    simpl. rewrite (getDimSize_nth _ _ E). simpl. unfold div64.
    destruct (Z.eqb_spec d 0) as [Hd | Hd]; [reflexivity|].
    simpl. apply Exists_cons in Hz. destruct Hz as [Hz | Hz]; [contradiction|].
    replace (Z.of_nat i + 1) with (Z.of_nat (S i)) by lia.
    apply IH; [lia | exact Hz].
Qed.

(** The stride the pattern computes when the sizes up to [dim] are not
    zero: the product of the sizes after [dim]. *)
Lemma stride_loop_trailing (dim : Z) :
  0 <= dim < Z.of_nat (List.length shape) ->
  Forall (fun d => d <> 0) (firstn (Z.to_nat dim + 1) shape) ->
  stride_loop output_type (Z.to_nat (dim + 1)) 0 (product shape) =
    Done (trailing_product shape dim).
Proof.
  intros Hdim Hnz.
  replace (Z.to_nat (dim + 1)) with (Z.to_nat dim + 1)%nat by lia.
  change 0 with (Z.of_nat 0).
  rewrite stride_loop_quot; [| simpl; lia | exact Hnz].
  simpl skipn.
  rewrite (product_split (Z.to_nat dim + 1) shape).
  rewrite fold_quot_product by exact Hnz. reflexivity.
Qed.
End StrideLoop.

Lemma Forall_pos_nonzero (l : list Z) :
  Forall (fun d => 0 < d) l -> Forall (fun d => d <> 0) l.
Proof. apply Forall_impl. intros d H. lia. Qed.

Lemma stride_closed_form_trailing (shape : list Z) (dim : Z) :
  Forall (fun d => 0 < d) (firstn (Z.to_nat dim + 1) shape) ->
  stride_closed_form shape dim = trailing_product shape dim.
Proof.
  intros H. unfold stride_closed_form, trailing_product.
  rewrite (product_split (Z.to_nat dim + 1) shape) at 1.
  rewrite Z.mul_comm. apply Z.div_mul.
  pose proof (product_pos _ H). lia.
Qed.

Lemma wrap_int64_small (z : Z) :
  - 2 ^ 63 <= z <= INT64_MAX -> wrap_int64 z = z.
Proof.
  intros H. unfold wrap_int64. unfold INT64_MAX in H.
  rewrite Z.mod_small by lia. lia.
Qed.

Lemma forallb_nonneg (shape : list Z) :
  Forall (fun d => 0 <= d) shape ->
  forallb (fun d => 0 <=? d) shape = true.
Proof.
  intros H. apply forallb_forall. intros d Hd.
  rewrite Forall_forall in H. apply Z.leb_le. exact (H d Hd).
Qed.

(** A count that fits an [int64_t] is the exact product of the sizes. *)
Lemma getNumElements_static (output_type : ShapedType) :
  Forall (fun d => 0 <= d) (getShape output_type) ->
  product (getShape output_type) <= INT64_MAX ->
  getNumElements output_type = Done (product (getShape output_type)).
Proof.
  intros Hstatic Hfit. unfold getNumElements.
  rewrite (forallb_nonneg _ Hstatic).
  pose proof (product_nonneg _ Hstatic).
  rewrite wrap_int64_small by lia. reflexivity.
Qed.

Lemma Forall_pos_nonneg (l : list Z) :
  Forall (fun d => 0 < d) l -> Forall (fun d => 0 <= d) l.
Proof. apply Forall_impl. intros d H. lia. Qed.

(** C7 (amended): for a shape whose sizes are all strictly positive, whose
    element count fits an [int64_t], and a valid dimension index, the stride
    the pattern computes, by dividing the element count it got by the sizes
    at index 0 through [dim] in turn, is the closed form
    [total / (d0*...*ddim)], and that is the product of the sizes after
    [dim]. *)
Theorem stride_loop_refines_closed_form
    (output_type : ShapedType) (dim : Z) :
  Forall (fun d => 0 < d) (getShape output_type) ->
  product (getShape output_type) <= INT64_MAX ->
  0 <= dim < Z.of_nat (List.length (getShape output_type)) ->
  computed_stride output_type dim =
    Done (stride_closed_form (getShape output_type) dim) /\
  stride_closed_form (getShape output_type) dim =
    trailing_product (getShape output_type) dim.
Proof.
  intros Hpos Hfit Hdim.
  assert (Hfirst : Forall (fun d => 0 < d)
                     (firstn (Z.to_nat dim + 1) (getShape output_type))).
  { rewrite <- (firstn_skipn (Z.to_nat dim + 1)) in Hpos.
    apply Forall_app in Hpos. tauto. }
  pose proof (stride_closed_form_trailing _ _ Hfirst) as Hclosed.
  split; [| exact Hclosed].
  unfold computed_stride.
  rewrite getNumElements_static
    by (try apply Forall_pos_nonneg; assumption).
  cbn [exec_bind]. rewrite Hclosed.
  apply stride_loop_trailing; [exact Hdim |].
  apply Forall_pos_nonzero. exact Hfirst.
Qed.

Lemma stride_loop_refines_closed_form_witness :
  computed_stride (tensor i32 [2; 3; 4]) 1 =
    Done (stride_closed_form [2; 3; 4] 1) /\
  stride_closed_form [2; 3; 4] 1 = trailing_product [2; 3; 4] 1.
Proof.
  apply (stride_loop_refines_closed_form (tensor i32 [2; 3; 4]) 1).
  - simpl. repeat constructor.
  - vm_compute. discriminate.
  - simpl. lia.
Defined.

(** The shape 3 x 6148914691236517206 has positive sizes and 2^64 + 2
    elements: the count the pattern gets is 2, its stride along dimension
    0 is 2 / 3 = 0, and the closed form is 6148914691236517206. *)
Lemma stride_of_wrapped_count_not_closed_form :
  Forall (fun d => 0 < d) [3; 6148914691236517206] /\
  0 <= 0 < Z.of_nat (List.length [3; 6148914691236517206]) /\
  computed_stride (tensor i32 [3; 6148914691236517206]) 0 = Done 0 /\
  ~ stride_as_closed_form (tensor i32 [3; 6148914691236517206]) 0.
Proof.
  split; [repeat constructor; lia|]. split; [simpl; lia|].
  split; [vm_compute; reflexivity|].
  unfold stride_as_closed_form. vm_compute. discriminate.
Qed.

(** ** The fill loop *)

Lemma incr_int_below (i : Z) : i < INT_MAX -> incr_int i = Done (i + 1).
Proof.
  intros H. unfold incr_int.
  destruct (Z.leb_spec INT_MAX i); [lia | reflexivity].
Qed.

Lemma incr_int_at_max (i : Z) : INT_MAX <= i -> incr_int i = Abort SignedOverflow.
Proof.
  intros H. unfold incr_int.
  destruct (Z.leb_spec INT_MAX i); [reflexivity | lia].
Qed.

Lemma fill_values_succ (bitwidth s m c : Z) (n : nat) :
  fill_values bitwidth s m c (S n) =
    APInt_of bitwidth (Z.rem (Z.quot c s) m) ::
    fill_values bitwidth s m (c + 1) n.
Proof.
  unfold fill_values. simpl. rewrite Z.add_0_r. f_equal.
  rewrite <- seq_shift, map_map. apply map_ext. intros j.
  do 3 f_equal. lia.
Qed.

(** With non-zero divisors and a counter that stays within [int], the
    fill loop appends one scalar per position. *)
Lemma fill_loop_values (bitwidth increase_stride max_dim_size : Z) :
  increase_stride <> 0 -> max_dim_size <> 0 ->
  forall n i current_value values,
    i + Z.of_nat n <= INT_MAX ->
    fill_loop bitwidth increase_stride max_dim_size n i current_value values =
      Done (values ++
            fill_values bitwidth increase_stride max_dim_size current_value n).
Proof.
  intros Hs Hm. induction n as [| n IH]; intros i c values Hi.
  - simpl. rewrite app_nil_r. reflexivity.
  - simpl fill_loop. unfold div64, rem64.
    rewrite (proj2 (Z.eqb_neq _ 0) Hs), (proj2 (Z.eqb_neq _ 0) Hm).
    cbn [exec_bind]. rewrite incr_int_below by lia. cbn [exec_bind].
    rewrite IH by lia. rewrite <- app_assoc, fill_values_succ. reflexivity.
Qed.

(** With more positions to fill than the counter can count, the fill loop
    ends in an overflow of the counter. *)
Lemma fill_loop_overflow (bitwidth increase_stride max_dim_size : Z) :
  increase_stride <> 0 -> max_dim_size <> 0 ->
  forall n i current_value values,
    i <= INT_MAX -> INT_MAX < i + Z.of_nat n ->
    fill_loop bitwidth increase_stride max_dim_size n i current_value values =
      Abort SignedOverflow.
Proof.
  intros Hs Hm. induction n as [| n IH]; intros i c values Hi Hn; [lia|].
  simpl fill_loop. unfold div64, rem64.
  rewrite (proj2 (Z.eqb_neq _ 0) Hs), (proj2 (Z.eqb_neq _ 0) Hm).
  cbn [exec_bind].
  destruct (Z_lt_dec i INT_MAX) as [Hlt | Hge].
  - rewrite incr_int_below by exact Hlt. cbn [exec_bind].
    apply IH; lia.
  - rewrite incr_int_at_max by lia. reflexivity.
Qed.

(** Whenever the fill loop ends normally it has appended one scalar per
    position, and it has divided only by non-zero numbers. *)
Lemma fill_loop_inv (bitwidth increase_stride max_dim_size : Z) :
  forall n i current_value values result,
    fill_loop bitwidth increase_stride max_dim_size n i current_value values =
      Done result ->
    result = values ++
             fill_values bitwidth increase_stride max_dim_size current_value n /\
    (n <> O -> increase_stride <> 0 /\ max_dim_size <> 0).
Proof.
  induction n as [| n IH]; intros i c values result H.
  - simpl in H. injection H as <-. rewrite app_nil_r.
    split; [reflexivity | intros E; contradiction].
  - simpl fill_loop in H. unfold div64, rem64 in H.
    destruct (Z.eqb_spec increase_stride 0) as [| Hs]; [discriminate H|].
    destruct (Z.eqb_spec max_dim_size 0) as [| Hm]; [discriminate H|].
    cbn [exec_bind] in H.
    destruct (incr_int i) as [i' | f]; [| discriminate H].
    cbn [exec_bind] in H.
    destruct (IH _ _ _ _ H) as [-> _].
    rewrite <- app_assoc, fill_values_succ.
    split; [reflexivity | intros _; split; assumption].
Qed.

(** On non-negative operands the C++ operators agree with [/] and [mod]. *)
Lemma rem_quot_nonneg (k s m : Z) :
  0 <= k -> 0 < s -> 0 < m -> Z.rem (Z.quot k s) m = (k / s) mod m.
Proof.
  intros Hk Hs Hm.
  rewrite Z.quot_div_nonneg by lia.
  apply Z.rem_mod_nonneg; [apply Z.div_pos; lia | lia].
Qed.

Lemma dim_size_nth_error (shape : list Z) (dim : Z) :
  0 <= dim < Z.of_nat (List.length shape) ->
  nth_error shape (Z.to_nat dim) = Some (dim_size shape dim).
Proof.
  intros H. unfold dim_size. apply nth_error_nth'. lia.
Qed.

Lemma dim_size_pos (shape : list Z) (dim : Z) :
  0 <= dim < Z.of_nat (List.length shape) ->
  Forall (fun d => 0 < d) (firstn (Z.to_nat dim + 1) shape) ->
  0 < dim_size shape dim.
Proof.
  intros Hdim Hpos. rewrite Forall_forall in Hpos. apply Hpos.
  pose proof (dim_size_nth_error _ _ Hdim) as E.
  apply nth_error_In with (n := Z.to_nat dim).
  rewrite nth_error_firstn.
  destruct (Nat.ltb_spec (Z.to_nat dim) (Z.to_nat dim + 1)); [exact E | lia].
Qed.

Lemma trailing_product_pos (shape : list Z) (dim : Z) :
  Forall (fun d => 0 <= d) shape ->
  Forall (fun d => 0 < d) (firstn (Z.to_nat dim + 1) shape) ->
  0 < product shape ->
  0 < trailing_product shape dim.
Proof.
  intros Hnn Hpos Htot. unfold trailing_product.
  rewrite (product_split (Z.to_nat dim + 1) shape) in Htot.
  pose proof (product_pos _ Hpos).
  pose proof (product_nonneg _ (Forall_skipn _ (Z.to_nat dim + 1) _ Hnn)).
  nia.
Qed.

Lemma product_zero (l : list Z) :
  Exists (fun d => d = 0) l -> product l = 0.
Proof.
  induction 1 as [d l Hd | d l _ IH];
    change (product (d :: l)) with (d * product l).
  - rewrite Hd. apply Z.mul_0_l.
  - rewrite IH. apply Z.mul_0_r.
Qed.

Lemma product_zero_prefix (n : nat) (l : list Z) :
  Exists (fun d => d = 0) (firstn n l) -> product l = 0.
Proof.
  intros H. rewrite (product_split n l), (product_zero _ H).
  apply Z.mul_0_l.
Qed.

Lemma reserve_count (output_size : Z) :
  0 <= output_size -> reserve output_size = Done tt.
Proof.
  intros H. unfold reserve.
  destruct (Z.ltb_spec output_size 0); [lia | reflexivity].
Qed.

(** The pattern on a result of integer kind: the steps after the test of
    the kind. *)
Lemma ConvertIotaOp_integer (op : IotaOp) (rewriter : PatternRewriter)
    (w : positive) :
  getElementType (IotaOp_getType op) = IntegerType w ->
  ConvertIotaOp_matchAndRewrite op rewriter =
    (output_size <- getNumElements (IotaOp_getType op) ;;
     max_dim_size <- getDimSize (IotaOp_getType op) (iota_dimension op) ;;
     _ <- reserve output_size ;;
     increase_stride <-
       stride_loop (IotaOp_getType op)
         (Z.to_nat (iota_dimension op + 1)) 0 output_size ;;
     values <-
       fill_loop (Z.pos w) increase_stride max_dim_size
         (Z.to_nat output_size) 0 0 [] ;;
     Done (matchSuccess,
           replaceOpWithNewOp rewriter (xla_hlo_IotaOp op)
             (ConstantOp {| dense_type := IotaOp_getType op;
                            dense_values := values |})))%exec.
Proof.
  intros H. unfold ConvertIotaOp_matchAndRewrite. rewrite H. reflexivity.
Qed.

Section IotaResult.
Variables (op : IotaOp) (rewriter : PatternRewriter) (w : positive).
Let output_type := IotaOp_getType op.
Let shape := getShape output_type.
Let dim := iota_dimension op.

Hypothesis integer_kind : getElementType output_type = IntegerType w.
Hypothesis static_shape : Forall (fun d => 0 <= d) shape.
Hypothesis valid_dimension : 0 <= dim < Z.of_nat (List.length shape).

Lemma getDimSize_dimension :
  getDimSize output_type dim = Done (dim_size shape dim).
Proof.
  rewrite <- (Z2Nat.id dim) at 1 by lia.
  apply getDimSize_nth. apply dim_size_nth_error. exact valid_dimension.
Qed.

(** The steps of the pattern up to the loops, when the count fits an
    [int64_t]. *)
Lemma ConvertIotaOp_loops :
  product shape <= INT64_MAX ->
  ConvertIotaOp_matchAndRewrite op rewriter =
    (increase_stride <-
       stride_loop output_type (Z.to_nat (dim + 1)) 0 (product shape) ;;
     values <-
       fill_loop (Z.pos w) increase_stride (dim_size shape dim)
         (Z.to_nat (product shape)) 0 0 [] ;;
     Done (matchSuccess,
           replaceOpWithNewOp rewriter (xla_hlo_IotaOp op)
             (ConstantOp {| dense_type := output_type;
                            dense_values := values |})))%exec.
Proof.
  intros Hfit.
  rewrite (ConvertIotaOp_integer op rewriter w integer_kind).
  fold output_type dim.
  rewrite (getNumElements_static output_type static_shape Hfit).
  fold shape. cbn [exec_bind].
  rewrite getDimSize_dimension. cbn [exec_bind].
  rewrite reserve_count by (apply product_nonneg; exact static_shape).
  reflexivity.
Qed.

Lemma stride_loop_positive :
  Forall (fun d => 0 < d) (firstn (Z.to_nat dim + 1) shape) ->
  stride_loop output_type (Z.to_nat (dim + 1)) 0 (product shape) =
    Done (trailing_product shape dim).
Proof.
  intros Hpos. apply stride_loop_trailing; [exact valid_dimension|].
  apply Forall_pos_nonzero. exact Hpos.
Qed.

(** What the pattern answers when no size up to [dim] is zero and the
    count fits an [int]. *)
Lemma ConvertIotaOp_result :
  Forall (fun d => 0 < d) (firstn (Z.to_nat dim + 1) shape) ->
  product shape <= INT_MAX ->
  stride_loop output_type (Z.to_nat (dim + 1)) 0 (product shape) =
    Done (trailing_product shape dim) /\
  fill_loop (Z.pos w) (trailing_product shape dim) (dim_size shape dim)
    (Z.to_nat (product shape)) 0 0 [] =
    Done (iota_values (Z.pos w) shape dim) /\
  ConvertIotaOp_matchAndRewrite op rewriter =
    Done (matchSuccess,
          replaceOpWithNewOp rewriter (xla_hlo_IotaOp op)
            (ConstantOp {| dense_type := output_type;
                           dense_values := iota_values (Z.pos w) shape dim |})).
Proof.
  intros Hpos Hfit.
  pose proof (stride_loop_positive Hpos) as Hstride.
  assert (Hfill : fill_loop (Z.pos w) (trailing_product shape dim)
                    (dim_size shape dim) (Z.to_nat (product shape)) 0 0 [] =
                  Done (iota_values (Z.pos w) shape dim)).
  { unfold iota_values.
    destruct (Z.to_nat (product shape)) as [| n] eqn:En; [reflexivity|].
    assert (Htot : 0 < product shape) by lia.
    pose proof (trailing_product_pos _ _ static_shape Hpos Htot) as Hs.
    pose proof (dim_size_pos _ _ valid_dimension Hpos) as Hm.
    rewrite fill_loop_values by lia.
    rewrite app_nil_l. unfold fill_values. f_equal.
    apply map_ext. intros j. f_equal.
    unfold iota_value. rewrite Z.add_0_l.
    apply rem_quot_nonneg; lia. }
  split; [exact Hstride|]. split; [exact Hfill|].
  rewrite ConvertIotaOp_loops by (unfold INT_MAX, INT64_MAX in *; lia).
  rewrite Hstride. cbn [exec_bind]. rewrite Hfill. reflexivity.
Qed.

(** What the pattern answers when no size up to [dim] is zero and the
    count fits an [int64_t] but not an [int]. *)
Lemma ConvertIotaOp_counter_overflow :
  Forall (fun d => 0 < d) (firstn (Z.to_nat dim + 1) shape) ->
  INT_MAX < product shape <= INT64_MAX ->
  ConvertIotaOp_matchAndRewrite op rewriter = Abort SignedOverflow.
Proof.
  intros Hpos [Hbig Hfit].
  rewrite (ConvertIotaOp_loops Hfit), (stride_loop_positive Hpos).
  cbn [exec_bind].
  assert (Htot : 0 < product shape) by (unfold INT_MAX in Hbig; lia).
  pose proof (trailing_product_pos _ _ static_shape Hpos Htot) as Hs.
  pose proof (dim_size_pos _ _ valid_dimension Hpos) as Hm.
  rewrite fill_loop_overflow; [reflexivity | lia | lia | |].
  - unfold INT_MAX. lia.
  - lia.
Qed.

(** What the pattern answers when a size up to [dim] is zero. *)
Lemma ConvertIotaOp_zero_size :
  Exists (fun d => d = 0) (firstn (Z.to_nat dim + 1) shape) ->
  stride_loop output_type (Z.to_nat (dim + 1)) 0 (product shape) =
    Abort DivisionByZero /\
  ConvertIotaOp_matchAndRewrite op rewriter = Abort DivisionByZero.
Proof.
  intros Hz.
  assert (Hstride : stride_loop output_type (Z.to_nat (dim + 1)) 0
                      (product shape) = Abort DivisionByZero).
  { replace (Z.to_nat (dim + 1)) with (Z.to_nat dim + 1)%nat by lia.
    change 0 with (Z.of_nat 0).
    apply stride_loop_zero; [simpl; fold shape; lia | exact Hz]. }
  split; [exact Hstride|].
  rewrite ConvertIotaOp_loops
    by (rewrite (product_zero_prefix _ _ Hz); unfold INT64_MAX; lia).
  rewrite Hstride. reflexivity.
Qed.
End IotaResult.

Lemma getDimSize_invalid (output_type : ShapedType) (idx : Z) :
  ~ 0 <= idx < Z.of_nat (List.length (getShape output_type)) ->
  getDimSize output_type idx = Abort AssertionFailure.
Proof.
  intros H. unfold getDimSize.
  destruct (Z.ltb_spec idx 0) as [_ | Hge]; [reflexivity|].
  destruct (nth_error (getShape output_type) (Z.to_nat idx)) eqn:E;
    [| reflexivity].
  assert (nth_error (getShape output_type) (Z.to_nat idx) <> None)
    as Hsome by (rewrite E; discriminate).
  apply nth_error_Some in Hsome. lia.
Qed.

(** C9 (amended): in the iota pattern, for an integer result kind, a
    static shape and a valid dimension index. When every size at index 0
    through [dim] is strictly positive and the element count fits an
    [int64_t], the stride loop ends normally and the pattern does not end
    in a division by zero; when the count moreover fits an [int], the fill
    loop and the whole pattern run to their end, so none of the divisions
    [stride /= shape[i]] and [k / stride] (nor the remainder by
    [shape[dim]]) has a zero divisor. When one of the sizes at index 0
    through [dim] is zero, the stride loop divides by zero and the pattern
    stops with that fault. *)
Theorem iota_division_by_zero
    (op : IotaOp) (rewriter : PatternRewriter) (w : positive) :
  let output_type := IotaOp_getType op in
  let shape := getShape output_type in
  let dim := iota_dimension op in
  getElementType output_type = IntegerType w ->
  Forall (fun d => 0 <= d) shape ->
  0 <= dim < Z.of_nat (List.length shape) ->
  (Forall (fun d => 0 < d) (firstn (Z.to_nat dim + 1) shape) ->
   product shape <= INT64_MAX ->
   getNumElements output_type = Done (product shape) /\
   stride_loop output_type (Z.to_nat (dim + 1)) 0 (product shape) =
     Done (trailing_product shape dim) /\
   (0 < product shape ->
    trailing_product shape dim <> 0 /\ dim_size shape dim <> 0) /\
   ConvertIotaOp_matchAndRewrite op rewriter <> Abort DivisionByZero /\
   (product shape <= INT_MAX ->
    exists values,
      fill_loop (Z.pos w) (trailing_product shape dim) (dim_size shape dim)
        (Z.to_nat (product shape)) 0 0 [] = Done values /\
      ConvertIotaOp_matchAndRewrite op rewriter =
        Done (matchSuccess,
              replaceOpWithNewOp rewriter (xla_hlo_IotaOp op)
                (ConstantOp {| dense_type := output_type;
                               dense_values := values |})))) /\
  (Exists (fun d => d = 0) (firstn (Z.to_nat dim + 1) shape) ->
   stride_loop output_type (Z.to_nat (dim + 1)) 0 (product shape) =
     Abort DivisionByZero /\
   ConvertIotaOp_matchAndRewrite op rewriter = Abort DivisionByZero).
Proof.
  intros output_type shape dim Hkind Hstatic Hdim. split.
  - intros Hpos Hfit.
    split; [exact (getNumElements_static output_type Hstatic Hfit)|].
    split; [exact (stride_loop_positive op Hdim Hpos)|].
    split.
    { intros Htot.
      pose proof (trailing_product_pos _ _ Hstatic Hpos Htot).
      pose proof (dim_size_pos _ _ Hdim Hpos).
      fold shape dim. lia. }
    assert (Hsmall : product shape <= INT_MAX ->
              exists values,
                fill_loop (Z.pos w) (trailing_product shape dim)
                  (dim_size shape dim) (Z.to_nat (product shape)) 0 0 [] =
                  Done values /\
                ConvertIotaOp_matchAndRewrite op rewriter =
                  Done (matchSuccess,
                        replaceOpWithNewOp rewriter (xla_hlo_IotaOp op)
                          (ConstantOp {| dense_type := output_type;
                                         dense_values := values |}))).
    { intros Hint. exists (iota_values (Z.pos w) shape dim).
      exact (proj2 (ConvertIotaOp_result op rewriter w
                      Hkind Hstatic Hdim Hpos Hint)). }
    split; [| exact Hsmall].
    destruct (Z_le_dec (product shape) INT_MAX) as [Hint | Hbig].
    + destruct (Hsmall Hint) as (values & _ & ->). discriminate.
    + assert (Hrange : INT_MAX < product shape <= INT64_MAX) by lia.
      rewrite (ConvertIotaOp_counter_overflow op rewriter w
                 Hkind Hstatic Hdim Hpos Hrange).
      discriminate.
  - intros Hz.
    exact (ConvertIotaOp_zero_size op rewriter w Hkind Hstatic Hdim Hz).
Qed.

Lemma iota_division_by_zero_witness :
  ConvertIotaOp_matchAndRewrite (iota (tensor i32 [2; 0; 3]) 1) [] =
    Abort DivisionByZero /\
  ConvertIotaOp_matchAndRewrite (iota (tensor i32 [2; 3]) 1) [] <>
    Abort DivisionByZero /\
  exists values,
    ConvertIotaOp_matchAndRewrite (iota (tensor i32 [2; 3]) 1) [] =
      Done (matchSuccess,
            [(xla_hlo_IotaOp (iota (tensor i32 [2; 3]) 1),
              ConstantOp {| dense_type := tensor i32 [2; 3];
                            dense_values := values |})]).
Proof.
  split.
  - apply (iota_division_by_zero (iota (tensor i32 [2; 0; 3]) 1) [] 32).
    + reflexivity.
    + simpl. repeat constructor; lia.
    + simpl. lia.
    + simpl. right. left. reflexivity.
  - destruct (proj1 (iota_division_by_zero
                       (iota (tensor i32 [2; 3]) 1) [] 32 eq_refl
                       ltac:(simpl; repeat constructor; lia)
                       ltac:(simpl; lia))
                ltac:(simpl; repeat constructor; lia)
                ltac:(vm_compute; discriminate))
      as (_ & _ & _ & Hsafe & Hrun).
    split; [exact Hsafe|].
    destruct (Hrun ltac:(vm_compute; discriminate)) as (values & _ & H).
    exists values. exact H.
Defined.

(** The iota of 3 x 6148914691236517206 along dimension 0 has positive
    sizes at every index; its count of 2^64 + 2 elements reaches the
    pattern as 2, the stride is 2 / 3 = 0, and the first [k / stride]
    divides by zero. *)
Lemma iota_wrapped_count_divides_by_zero :
  Forall (fun d => 0 < d)
    (firstn (Z.to_nat 0 + 1) [3; 6148914691236517206]) /\
  ~ no_division_by_zero (iota (tensor i32 [3; 6148914691236517206]) 0).
Proof.
  split; [simpl; repeat constructor; lia|].
  unfold no_division_by_zero. intros H. apply H.
  vm_compute. reflexivity.
Qed.

(** ** Stored values *)

Lemma int_count_fits_int64 (count : Z) : count <= INT_MAX -> count <= INT64_MAX.
Proof. unfold INT_MAX, INT64_MAX. lia. Qed.

(** The stride the pattern computes when no size up to [dim] is zero and
    the count fits an [int64_t]. *)
Lemma computed_stride_positive (output_type : ShapedType) (dim : Z) :
  Forall (fun d => 0 <= d) (getShape output_type) ->
  0 <= dim < Z.of_nat (List.length (getShape output_type)) ->
  Forall (fun d => 0 < d)
    (firstn (Z.to_nat dim + 1) (getShape output_type)) ->
  product (getShape output_type) <= INT64_MAX ->
  computed_stride output_type dim =
    Done (trailing_product (getShape output_type) dim).
Proof.
  intros Hstatic Hdim Hpos Hfit. unfold computed_stride.
  rewrite (getNumElements_static _ Hstatic Hfit). cbn [exec_bind].
  apply stride_loop_trailing; [exact Hdim|].
  apply Forall_pos_nonzero. exact Hpos.
Qed.

Lemma APInt_of_VAL (numBits val : Z) :
  0 <= val <= INT64_MAX ->
  VAL (APInt_of numBits val) = val mod 2 ^ numBits.
Proof.
  intros H. unfold APInt_of. cbn [VAL]. unfold INT64_MAX in H.
  rewrite (Z.mod_small val (2 ^ 64)) by lia. reflexivity.
Qed.

Lemma iota_values_length (bitwidth : Z) (shape : list Z) (dim : Z) :
  Forall (fun d => 0 <= d) shape ->
  Z.of_nat (List.length (iota_values bitwidth shape dim)) = product shape.
Proof.
  intros H. unfold iota_values. rewrite length_map, length_seq.
  pose proof (product_nonneg _ H). lia.
Qed.

Lemma iota_values_nth (bitwidth : Z) (shape : list Z) (dim k : Z) :
  0 <= k < product shape ->
  nth_error (iota_values bitwidth shape dim) (Z.to_nat k) =
    Some (APInt_of bitwidth (iota_value shape dim k)).
Proof.
  intros H. unfold iota_values.
  rewrite nth_error_map, nth_error_seq.
  destruct (Nat.ltb_spec (Z.to_nat k) (Z.to_nat (product shape))); [| lia].
  simpl. rewrite Z2Nat.id by lia. reflexivity.
Qed.

Lemma iota_value_range (shape : list Z) (dim k : Z) :
  0 < dim_size shape dim ->
  0 <= iota_value shape dim k < dim_size shape dim.
Proof. intros H. unfold iota_value. apply Z.mod_pos_bound. exact H. Qed.

Lemma dim_size_bound (shape : list Z) (dim : Z) (bound : Z) :
  0 <= dim < Z.of_nat (List.length shape) ->
  Forall (fun d => 0 <= d <= bound) shape ->
  dim_size shape dim <= bound.
Proof.
  intros Hdim H. rewrite Forall_forall in H.
  apply (H (dim_size shape dim)).
  apply nth_error_In with (n := Z.to_nat dim).
  apply dim_size_nth_error. exact Hdim.
Qed.

Lemma firstn_succ_nth (l : list Z) :
  forall n, (n < List.length l)%nat ->
  firstn (n + 1) l = firstn n l ++ [nth n l 0].
Proof.
  induction l as [| a l IH]; intros [| n] H; simpl in *; try lia.
  - reflexivity.
  - f_equal. apply IH. lia.
Qed.

(** With positive sizes up to [dim], a block of [shape[dim]] strides fits
    in the element count. *)
Lemma dim_block_fits (shape : list Z) (dim : Z) :
  0 <= dim < Z.of_nat (List.length shape) ->
  Forall (fun d => 0 <= d) shape ->
  Forall (fun d => 0 < d) (firstn (Z.to_nat dim + 1) shape) ->
  dim_size shape dim * trailing_product shape dim <= product shape.
Proof.
  intros Hdim Hnn Hpos. unfold trailing_product.
  rewrite (product_split (Z.to_nat dim + 1) shape).
  pose proof (product_nonneg _ (Forall_skipn _ (Z.to_nat dim + 1) _ Hnn)) as Hr.
  rewrite firstn_succ_nth in Hpos |- * by lia.
  rewrite product_app, product_singleton. fold (dim_size shape dim).
  apply Forall_app in Hpos. destruct Hpos as [Hbefore Hat].
  pose proof (product_pos _ Hbefore) as Hb.
  pose proof (product_pos _ Hat) as Hd.
  rewrite product_singleton in Hd. fold (dim_size shape dim) in Hd.
  nia.
Qed.

Lemma static_int64_nonneg (shape : list Z) :
  static_int64_shape shape -> Forall (fun d => 0 <= d) shape.
Proof. apply Forall_impl. intros d H. lia. Qed.

Lemma nonzero_dec (d : Z) : {d <> 0} + {~ d <> 0}.
Proof.
  destruct (Z.eq_dec d 0) as [E | N]; [right; intros H; exact (H E) | left].
  exact N.
Qed.

(** The stride loop ends normally only when none of the sizes it divides
    by is zero. *)
Lemma stride_loop_Done (output_type : ShapedType) (n : nat) (s r : Z) :
  (n <= List.length (getShape output_type))%nat ->
  stride_loop output_type n 0 s = Done r ->
  Forall (fun d => d <> 0) (firstn n (getShape output_type)) /\
  r = fold_left Z.quot (firstn n (getShape output_type)) s.
Proof.
  intros Hn H. change 0 with (Z.of_nat 0) in H.
  destruct (Forall_Exists_dec (fun d => d <> 0) nonzero_dec
              (firstn n (getShape output_type))) as [Hnz | Hz].
  - split; [exact Hnz|].
    rewrite stride_loop_quot in H; [| simpl; lia | exact Hnz].
    injection H as <-. reflexivity.
  - exfalso.
    assert (Hzero : Exists (fun d => d = 0) (firstn n (getShape output_type))).
    { revert Hz. apply Exists_impl. intros d Hd. lia. }
    rewrite stride_loop_zero in H; [discriminate H | simpl; lia | exact Hzero].
Qed.

Lemma fold_quot_nonneg (ds : list Z) :
  Forall (fun d => 0 < d) ds ->
  forall s, 0 <= s -> 0 <= fold_left Z.quot ds s.
Proof.
  induction 1 as [| d ds Hd _ IH]; intros s Hs; [exact Hs|].
  simpl. apply IH. apply Z.quot_pos; lia.
Qed.

Lemma Forall_nonneg_nonzero_pos (l : list Z) :
  Forall (fun d => 0 <= d) l -> Forall (fun d => d <> 0) l ->
  Forall (fun d => 0 < d) l.
Proof.
  intros Hnn Hnz. apply Forall_forall. intros d Hd.
  rewrite Forall_forall in Hnn, Hnz.
  pose proof (Hnn d Hd). pose proof (Hnz d Hd). lia.
Qed.

Lemma Forall_firstn {A : Type} (P : A -> Prop) (n : nat) (l : list A) :
  Forall P l -> Forall P (firstn n l).
Proof.
  intros H. rewrite <- (firstn_skipn n l) in H.
  apply Forall_app in H. tauto.
Qed.

Lemma wrap_int64_range (z : Z) : - 2 ^ 63 <= wrap_int64 z <= INT64_MAX.
Proof.
  unfold wrap_int64, INT64_MAX.
  pose proof (Z.mod_pos_bound (z + 2 ^ 63) (2 ^ 64) ltac:(lia)). lia.
Qed.

(** Whenever the pattern answers success: what the operation was, what the
    pattern computed on the way, and what it asked of the rewriter. *)
Lemma ConvertIotaOp_success_inv
    (op : IotaOp) (rewriter r : PatternRewriter) :
  ConvertIotaOp_matchAndRewrite op rewriter = Done (matchSuccess, r) ->
  exists w output_size increase_stride,
    getElementType (IotaOp_getType op) = IntegerType w /\
    Forall (fun d => 0 <= d) (getShape (IotaOp_getType op)) /\
    getNumElements (IotaOp_getType op) = Done output_size /\
    0 <= output_size <= INT64_MAX /\
    0 <= iota_dimension op <
      Z.of_nat (List.length (getShape (IotaOp_getType op))) /\
    Forall (fun d => 0 < d)
      (firstn (Z.to_nat (iota_dimension op) + 1)
         (getShape (IotaOp_getType op))) /\
    computed_stride (IotaOp_getType op) (iota_dimension op) =
      Done increase_stride /\
    0 <= increase_stride /\
    (0 < output_size -> 0 < increase_stride) /\
    r = rewriter ++
        [(xla_hlo_IotaOp op,
          ConstantOp
            {| dense_type := IotaOp_getType op;
               dense_values :=
                 fill_values (Z.pos w) increase_stride
                   (dim_size (getShape (IotaOp_getType op))
                      (iota_dimension op))
                   0 (Z.to_nat output_size) |})].
Proof.
  intros H.
  destruct (getElementType (IotaOp_getType op)) as [w | | |] eqn:Hkind;
    try (unfold ConvertIotaOp_matchAndRewrite in H; rewrite Hkind in H;
         simpl in H; discriminate H).
  rewrite (ConvertIotaOp_integer op rewriter w Hkind) in H.
  destruct (getNumElements (IotaOp_getType op)) as [output_size |] eqn:En;
    [| discriminate H].
  cbn [exec_bind] in H.
  assert (Hstatic : Forall (fun d => 0 <= d) (getShape (IotaOp_getType op))).
  { unfold getNumElements in En.
    destruct (forallb (fun d => 0 <=? d) (getShape (IotaOp_getType op)))
      eqn:Hf; [| discriminate En].
    apply Forall_forall. intros d Hd. apply Z.leb_le.
    exact (proj1 (forallb_forall _ _) Hf d Hd). }
  assert (Hrange : - 2 ^ 63 <= output_size <= INT64_MAX).
  { unfold getNumElements in En. rewrite (forallb_nonneg _ Hstatic) in En.
    injection En as <-. apply wrap_int64_range. }
  assert (Hdim : 0 <= iota_dimension op <
                 Z.of_nat (List.length (getShape (IotaOp_getType op)))).
  { destruct (Z_le_dec 0 (iota_dimension op)) as [Hlo |];
      [destruct (Z_lt_dec (iota_dimension op)
                   (Z.of_nat (List.length (getShape (IotaOp_getType op)))))
         as [Hhi |]|];
      [lia | |];
      (exfalso; rewrite getDimSize_invalid in H by lia; discriminate H). }
  rewrite (getDimSize_dimension op Hdim) in H. cbn [exec_bind] in H.
  unfold reserve in H.
  destruct (Z.ltb_spec output_size 0) as [| Hcount]; [discriminate H|].
  cbn [exec_bind] in H.
  destruct (stride_loop (IotaOp_getType op)
              (Z.to_nat (iota_dimension op + 1)) 0 output_size)
    as [increase_stride |] eqn:Es; [| discriminate H].
  cbn [exec_bind] in H.
  destruct (fill_loop (Z.pos w) increase_stride _ _ 0 0 [])
    as [values |] eqn:Ef; [| discriminate H].
  cbn [exec_bind] in H. injection H as <-.
  destruct (fill_loop_inv _ _ _ _ _ _ _ _ Ef) as [-> Hdiv].
  assert (Hlen : (Z.to_nat (iota_dimension op + 1) <=
                  List.length (getShape (IotaOp_getType op)))%nat) by lia.
  destruct (stride_loop_Done _ _ _ _ Hlen Es) as [Hnz Hfold].
  replace (Z.to_nat (iota_dimension op + 1))
    with (Z.to_nat (iota_dimension op) + 1)%nat in Hnz, Hfold by lia.
  pose proof (Forall_nonneg_nonzero_pos _
                (Forall_firstn _ _ _ Hstatic) Hnz) as Hpos.
  assert (Hs : 0 <= increase_stride).
  { rewrite Hfold. apply fold_quot_nonneg; assumption. }
  exists w, output_size, increase_stride.
  repeat (split; [assumption || lia || reflexivity|]).
  split.
  { unfold computed_stride. rewrite En. cbn [exec_bind]. exact Es. }
  split; [exact Hs|]. split; [| reflexivity].
  intros Hgt. destruct Hdiv as [Hne _]; lia.
Qed.

Lemma fill_values_nth (bitwidth s m c : Z) (n k : nat) (a : APInt) :
  nth_error (fill_values bitwidth s m c n) k = Some a ->
  (k < n)%nat /\
  a = APInt_of bitwidth (Z.rem (Z.quot (c + Z.of_nat k) s) m).
Proof.
  unfold fill_values. rewrite nth_error_map, nth_error_seq.
  destruct (Nat.ltb_spec k n) as [Hlt | Hge]; simpl; [| discriminate].
  intros H. injection H as <-. split; [exact Hlt | reflexivity].
Qed.

(** C10: the iota pattern stores fixed-width scalars. Whenever it rewrites
    an iota whose shape has [int64_t] sizes, every scalar of the constant
    has the bitwidth [w] of the result kind, and the stored value at flat
    index [k] is [((k / stride) mod shape[dim]) mod 2^w], [stride] being
    the stride the pattern computed. For an integer kind, a valid
    dimension index, positive sizes up to [dim] and an element count that
    fits an [int], the pattern does rewrite, with one scalar per flat
    index, and the stride it computes is the product of the sizes after
    [dim]; when moreover [shape[dim]] exceeds [2^w] and the tensor is not
    empty, some stored value differs from [(k / stride) mod shape[dim]]:
    the values wrap. *)
Theorem iota_stored_values_wrap :
  (forall (op : IotaOp) (rewriter r : PatternRewriter),
     let output_type := IotaOp_getType op in
     let shape := getShape output_type in
     let dim := iota_dimension op in
     static_int64_shape shape ->
     ConvertIotaOp_matchAndRewrite op rewriter = Done (matchSuccess, r) ->
     exists w stride values,
       getElementType output_type = IntegerType w /\
       computed_stride output_type dim = Done stride /\
       r = replaceOpWithNewOp rewriter (xla_hlo_IotaOp op)
             (ConstantOp {| dense_type := output_type;
                            dense_values := values |}) /\
       forall k a, nth_error values k = Some a ->
         BitWidth a = Z.pos w /\
         VAL a =
           ((Z.of_nat k / stride) mod dim_size shape dim) mod 2 ^ Z.pos w) /\
  (forall (op : IotaOp) (rewriter : PatternRewriter) (w : positive),
     let output_type := IotaOp_getType op in
     let shape := getShape output_type in
     let dim := iota_dimension op in
     getElementType output_type = IntegerType w ->
     static_int64_shape shape ->
     0 <= dim < Z.of_nat (List.length shape) ->
     Forall (fun d => 0 < d) (firstn (Z.to_nat dim + 1) shape) ->
     product shape <= INT_MAX ->
     exists values,
       ConvertIotaOp_matchAndRewrite op rewriter =
         Done (matchSuccess,
               replaceOpWithNewOp rewriter (xla_hlo_IotaOp op)
                 (ConstantOp {| dense_type := output_type;
                                dense_values := values |})) /\
       computed_stride output_type dim = Done (trailing_product shape dim) /\
       Z.of_nat (List.length values) = product shape /\
       (forall k, 0 <= k < product shape ->
          exists a, nth_error values (Z.to_nat k) = Some a /\
                    BitWidth a = Z.pos w /\
                    VAL a = iota_value shape dim k mod 2 ^ Z.pos w) /\
       (2 ^ Z.pos w < dim_size shape dim -> 0 < product shape ->
          exists k a, 0 <= k < product shape /\
                      nth_error values (Z.to_nat k) = Some a /\
                      VAL a <> iota_value shape dim k)).
Proof.
  split.
  - intros op rewriter r output_type shape dim Hstatic H.
    destruct (ConvertIotaOp_success_inv _ _ _ H)
      as (w & output_size & s & Hkind & Hnn & _ & _ & Hdim & Hpos
          & Hstride & _ & Hspos & ->).
    pose proof (dim_size_pos _ _ Hdim Hpos) as Hm.
    pose proof (dim_size_bound _ _ _ Hdim Hstatic) as Hmax.
    exists w, s. eexists.
    split; [exact Hkind|]. split; [exact Hstride|].
    split; [reflexivity|].
    intros k a Hnth.
    destruct (fill_values_nth _ _ _ _ _ _ _ Hnth) as [Hk ->].
    assert (Hs : 0 < s) by (apply Hspos; lia).
    fold output_type shape dim in Hm, Hmax |- *.
    rewrite Z.add_0_l, rem_quot_nonneg by lia.
    split; [reflexivity|].
    apply APInt_of_VAL.
    pose proof (Z.mod_pos_bound (Z.of_nat k / s) (dim_size shape dim) Hm).
    lia.
  - intros op rewriter w output_type shape dim Hkind Hstatic Hdim Hpos
      Hcount.
    pose proof (static_int64_nonneg _ Hstatic) as Hnn.
    pose proof (dim_size_pos _ _ Hdim Hpos) as Hm.
    pose proof (dim_size_bound _ _ _ Hdim Hstatic) as Hmax.
    exists (iota_values (Z.pos w) shape dim).
    split; [exact (proj2 (proj2 (ConvertIotaOp_result op rewriter w
                                   Hkind Hnn Hdim Hpos Hcount)))|].
    split; [exact (computed_stride_positive output_type dim Hnn Hdim Hpos
                     (int_count_fits_int64 _ Hcount))|].
    split; [exact (iota_values_length _ _ _ Hnn)|].
    assert (Hval : forall k,
               VAL (APInt_of (Z.pos w) (iota_value shape dim k)) =
               iota_value shape dim k mod 2 ^ Z.pos w).
    { intros k. apply APInt_of_VAL.
      pose proof (iota_value_range shape dim k Hm). lia. }
    split.
    + intros k Hk. eexists. split; [exact (iota_values_nth _ _ _ _ Hk)|].
      split; [reflexivity | apply Hval].
    + intros Hwide Htot.
      pose proof (trailing_product_pos _ _ Hnn Hpos Htot) as Hs.
      pose proof (dim_block_fits _ _ Hdim Hnn Hpos) as Hfit.
      assert (Hpow : 0 < 2 ^ Z.pos w) by (apply Z.pow_pos_nonneg; lia).
      set (k := 2 ^ Z.pos w * trailing_product shape dim).
      assert (Hk : 0 <= k < product shape) by (unfold k; nia).
      exists k, (APInt_of (Z.pos w) (iota_value shape dim k)).
      split; [exact Hk|]. split; [exact (iota_values_nth _ _ _ _ Hk)|].
      rewrite Hval.
      assert (Hiv : iota_value shape dim k = 2 ^ Z.pos w).
      { unfold iota_value, k. rewrite Z.div_mul by lia.
        apply Z.mod_small. lia. }
      rewrite Hiv, Z.mod_same by lia. lia.
Qed.

Lemma iota_stored_values_wrap_witness :
  (exists w stride values,
     computed_stride (tensor i8 [300]) 0 = Done stride /\
     [(xla_hlo_IotaOp (iota (tensor i8 [300]) 0),
       ConstantOp {| dense_type := tensor i8 [300];
                     dense_values := iota_values 8 [300] 0 |})] =
     [(xla_hlo_IotaOp (iota (tensor i8 [300]) 0),
       ConstantOp {| dense_type := tensor i8 [300];
                     dense_values := values |})] /\
     forall k a, nth_error values k = Some a ->
       BitWidth a = Z.pos w /\
       VAL a = ((Z.of_nat k / stride) mod 300) mod 2 ^ Z.pos w) /\
  exists k a values,
    ConvertIotaOp_matchAndRewrite (iota (tensor i8 [300]) 0) [] =
      Done (matchSuccess,
            [(xla_hlo_IotaOp (iota (tensor i8 [300]) 0),
              ConstantOp {| dense_type := tensor i8 [300];
                            dense_values := values |})]) /\
    nth_error values (Z.to_nat k) = Some a /\
    VAL a <> iota_value [300] 0 k.
Proof.
  split.
  - destruct (proj1 iota_stored_values_wrap (iota (tensor i8 [300]) 0) []
                [(xla_hlo_IotaOp (iota (tensor i8 [300]) 0),
                  ConstantOp {| dense_type := tensor i8 [300];
                                dense_values := iota_values 8 [300] 0 |})]
                ltac:(simpl; repeat constructor; unfold INT64_MAX; lia)
                ltac:(vm_compute; reflexivity))
      as (w & stride & values & _ & Hstride & Hr & Hvals).
    exists w, stride, values.
    split; [exact Hstride|]. split; [exact Hr | exact Hvals].
  - destruct (proj2 iota_stored_values_wrap (iota (tensor i8 [300]) 0) []
                8%positive eq_refl
                ltac:(simpl; repeat constructor; unfold INT64_MAX; lia)
                ltac:(simpl; lia)
                ltac:(simpl; repeat constructor; lia)
                ltac:(vm_compute; discriminate))
      as (values & Hrun & _ & _ & _ & Hwrap).
    destruct (Hwrap ltac:(vm_compute; reflexivity)
                ltac:(vm_compute; reflexivity))
      as (k & a & _ & Hnth & Hneq).
    exists k, a, values. split; [exact Hrun|].
    split; [exact Hnth | exact Hneq].
Defined.

(** ** Row-major coordinates *)

Lemma length_blocks {B : Type} (g : nat -> list B) (L : nat) :
  (forall c, List.length (g c) = L) ->
  forall n s, List.length (flat_map g (seq s n)) = (n * L)%nat.
Proof.
  intros Hg. induction n as [| n IH]; intros s; [reflexivity|].
  simpl. rewrite length_app, Hg, IH. reflexivity.
Qed.

(** In a concatenation of blocks of one length [L], position [q * L + r]
    is position [r] of block [q]. *)
Lemma nth_error_blocks {B : Type} (g : nat -> list B) (L : nat) :
  (forall c, List.length (g c) = L) ->
  forall n s q r, (r < L)%nat -> (q < n)%nat ->
    nth_error (flat_map g (seq s n)) (q * L + r) = nth_error (g (s + q)%nat) r.
Proof.
  intros Hg. induction n as [| n IH]; intros s q r Hr Hq; [lia|].
  simpl flat_map. destruct q as [| q].
  - simpl. rewrite nth_error_app1 by (rewrite Hg; exact Hr).
    rewrite Nat.add_0_r. reflexivity.
  - rewrite nth_error_app2 by (rewrite Hg; simpl; lia).
    rewrite Hg. replace (S q * L + r - L)%nat with (q * L + r)%nat by (simpl; lia).
    rewrite IH by lia. f_equal. f_equal. lia.
Qed.

Lemma row_major_length (shape : list Z) :
  Forall (fun d => 0 <= d) shape ->
  List.length (row_major shape) = Z.to_nat (product shape).
Proof.
  induction 1 as [| d ds Hd Hds IH]; [reflexivity|].
  simpl row_major.
  rewrite length_blocks with (L := List.length (row_major ds))
    by (intros c; apply length_map).
  rewrite IH. change (product (d :: ds)) with (d * product ds).
  rewrite Z2Nat.inj_mul; [reflexivity | exact Hd |].
  apply product_nonneg. assumption.
Qed.

Lemma product_pos_inv (l : list Z) :
  Forall (fun d => 0 <= d) l -> 0 < product l -> Forall (fun d => 0 < d) l.
Proof.
  induction 1 as [| d ds Hd Hds IH]; intros Hp; [constructor|].
  change (product (d :: ds)) with (d * product ds) in Hp.
  pose proof (product_nonneg _ Hds).
  constructor; [nia | apply IH; nia].
Qed.

(** The tuple at flat position [k] of [d :: ds]: the quotient by the size
    of a block, then the tuple of the remainder. *)
Lemma row_major_cons_nth (d : Z) (ds : list Z) (k : Z) :
  Forall (fun d => 0 < d) ds ->
  0 <= k < d * product ds ->
  nth (Z.to_nat k) (row_major (d :: ds)) [] =
    k / product ds :: nth (Z.to_nat (k mod product ds)) (row_major ds) [].
Proof.
  intros Hds Hk.
  pose proof (product_pos _ Hds) as HP.
  assert (Hnn : Forall (fun d => 0 <= d) ds)
    by (revert Hds; apply Forall_impl; intros; lia).
  pose proof (row_major_length _ Hnn) as HL.
  pose proof (Z.mod_pos_bound k (product ds) HP) as Hr.
  assert (Hq : 0 <= k / product ds < d).
  { split; [apply Z.div_pos; lia | apply Z.div_lt_upper_bound; lia]. }
  apply nth_error_nth.
  replace (Z.to_nat k)
    with (Z.to_nat (k / product ds) * List.length (row_major ds)
          + Z.to_nat (k mod product ds))%nat.
  2:{ rewrite HL, <- Z2Nat.inj_mul, <- Z2Nat.inj_add by lia.
      f_equal. rewrite (Z.div_mod k (product ds)) at 3 by lia. ring. }
  simpl row_major.
  rewrite nth_error_blocks by (try (intros c; apply length_map); lia).
  rewrite nth_error_map.
  rewrite (nth_error_nth' (row_major ds) []) by lia.
  simpl. rewrite Z2Nat.id by lia. reflexivity.
Qed.

Lemma mod_div_mod (k A m s : Z) :
  0 < A -> 0 < m -> 0 < s ->
  ((k mod (A * m * s)) / s) mod m = (k / s) mod m.
Proof.
  intros HA Hm Hs.
  replace (A * m * s) with (s * (A * m)) by ring.
  rewrite Z.rem_mul_r by nia.
  rewrite Z.add_comm, Z.mul_comm, Z.div_add_l by lia.
  rewrite (Z.div_small (k mod s) s) by (apply Z.mod_pos_bound; lia).
  rewrite Z.add_0_r.
  apply Z.mod_mod_divide. exists A. reflexivity.
Qed.

Lemma coordinate_row_major (shape : list Z) :
  Forall (fun d => 0 < d) shape ->
  forall n k, (n < List.length shape)%nat -> 0 <= k < product shape ->
    nth n (nth (Z.to_nat k) (row_major shape) []) 0 =
      (k / product (skipn (n + 1) shape)) mod nth n shape 0.
Proof.
  induction 1 as [| d ds Hd Hds IH]; intros n k Hn Hk; [simpl in Hn; lia|].
  change (product (d :: ds)) with (d * product ds) in Hk.
  pose proof (product_pos _ Hds) as HP.
  rewrite row_major_cons_nth by assumption.
  destruct n as [| n].
  - simpl. symmetry. apply Z.mod_small.
    split; [apply Z.div_pos; lia | apply Z.div_lt_upper_bound; lia].
  - simpl in Hn. simpl nth. simpl skipn.
    rewrite IH by (try apply Z.mod_pos_bound; lia).
    assert (Hsplit : product ds =
              product (firstn n ds) * nth n ds 0 * product (skipn (n + 1) ds)).
    { rewrite (product_split (n + 1) ds) at 1.
      rewrite firstn_succ_nth by lia.
      rewrite product_app, product_singleton. reflexivity. }
    assert (Hfirst : Forall (fun d => 0 < d) (firstn n ds)).
    { rewrite <- (firstn_skipn n ds) in Hds. apply Forall_app in Hds. tauto. }
    assert (Hat : 0 < nth n ds 0).
    { rewrite Forall_forall in Hds. apply Hds. apply nth_In. lia. }
    pose proof (product_pos _ Hfirst).
    pose proof (product_pos _ (Forall_skipn _ (n + 1) _ Hds)).
    rewrite Hsplit at 1. apply mod_div_mod; assumption.
Qed.

(** The value of the specification is the row-major coordinate. *)
Lemma iota_value_coordinate (shape : list Z) (dim k : Z) :
  Forall (fun d => 0 <= d) shape ->
  0 <= dim < Z.of_nat (List.length shape) ->
  0 <= k < product shape ->
  iota_value shape dim k = coordinate shape dim k.
Proof.
  intros Hnn Hdim Hk.
  assert (Hpos : Forall (fun d => 0 < d) shape)
    by (apply product_pos_inv; [exact Hnn | lia]).
  unfold iota_value, coordinate, trailing_product, dim_size.
  symmetry. apply coordinate_row_major; [exact Hpos | lia | exact Hk].
Qed.

(** ** The values of the iota constant *)

(** An iota of 300 elements of kind i8 along dimension 0: the pattern
    stores 0 at flat index 256, not 256. *)
Lemma iota_i8_300_not_exact : ~ iota_exact_values (iota (tensor i8 [300]) 0).
Proof.
  intros (values & Hrun & Hval).
  destruct (Hval 256 ltac:(unfold product; simpl; lia))
    as (a & Hnth & Ha).
  vm_compute in Hrun. injection Hrun as <-.
  vm_compute in Hnth. injection Hnth as <-.
  vm_compute in Ha. discriminate Ha.
Qed.

Lemma iota_values_VAL (bitwidth : Z) (shape : list Z) (dim : Z) :
  0 < dim_size shape dim <= INT64_MAX ->
  map VAL (iota_values bitwidth shape dim) =
    map (fun j => iota_value shape dim (Z.of_nat j) mod 2 ^ bitwidth)
      (seq 0 (Z.to_nat (product shape))).
Proof.
  intros H. unfold iota_values. rewrite map_map. apply map_ext.
  intros j. apply APInt_of_VAL.
  pose proof (iota_value_range shape dim (Z.of_nat j) (proj1 H)). lia.
Qed.

Lemma iota_2x3 (w : positive) (rewriter : PatternRewriter) (dim : Z)
    (expected : list Z) :
  2 <= Z.pos w ->
  0 <= dim < 2 ->
  map (fun j => iota_value [2; 3] dim (Z.of_nat j)) (seq 0 6) = expected ->
  Forall (fun v => 0 <= v < 4) expected ->
  exists values,
    ConvertIotaOp_matchAndRewrite (iota (tensor (IntegerType w) [2; 3]) dim)
      rewriter =
      Done (matchSuccess,
            replaceOpWithNewOp rewriter
              (xla_hlo_IotaOp (iota (tensor (IntegerType w) [2; 3]) dim))
              (ConstantOp {| dense_type := tensor (IntegerType w) [2; 3];
                             dense_values := values |})) /\
    map VAL values = expected.
Proof.
  intros Hw Hdim Hexp Hsmall.
  exists (iota_values (Z.pos w) [2; 3] dim). split.
  - apply (ConvertIotaOp_result (iota (tensor (IntegerType w) [2; 3]) dim)
             rewriter w eq_refl).
    + simpl. repeat constructor; lia.
    + simpl. lia.
    + simpl. assert (dim = 0 \/ dim = 1) as [-> | ->] by lia;
        simpl; repeat constructor; lia.
    + vm_compute. discriminate.
  - rewrite iota_values_VAL.
    + change (Z.to_nat (product [2; 3])) with 6%nat.
      rewrite <- Hexp in Hsmall |- *.
      apply map_ext_Forall. rewrite Forall_map in Hsmall.
      revert Hsmall. apply Forall_impl. intros j Hj.
      apply Z.mod_small.
      pose proof (Z.pow_le_mono_r 2 2 (Z.pos w) ltac:(lia) Hw). lia.
    + unfold INT64_MAX.
      assert (dim = 0 \/ dim = 1) as [-> | ->] by lia; vm_compute;
        split; [reflexivity | discriminate | reflexivity | discriminate].
Qed.

(** C1 (amended): for an iota of integer kind of width [w], with a static
    shape of [int64_t] sizes, a valid dimension index [dim], positive
    sizes at index 0 through [dim] and an element count [total] that fits
    an [int] (at most 2^31 - 1), the pattern replaces the operation by a
    dense constant of [total] scalars, each of bitwidth [w], whose stored
    value at flat index [k] is [((k / stride) mod shape[dim]) mod 2^w],
    with [stride], the stride the pattern computes, the product of the
    sizes after [dim]; [(k / stride) mod shape[dim]] is the coordinate of
    [k] along [dim] in row-major order, and the stored value equals it
    whenever [shape[dim] <= 2^w]. For a width of at least 2, shape [2,3]
    gives [0,1,2,0,1,2] along dimension 1 and [0,0,0,1,1,1] along
    dimension 0. *)
Theorem iota_row_major_values :
  (forall (op : IotaOp) (rewriter : PatternRewriter) (w : positive),
     let output_type := IotaOp_getType op in
     let shape := getShape output_type in
     let dim := iota_dimension op in
     getElementType output_type = IntegerType w ->
     static_int64_shape shape ->
     0 <= dim < Z.of_nat (List.length shape) ->
     Forall (fun d => 0 < d) (firstn (Z.to_nat dim + 1) shape) ->
     product shape <= INT_MAX ->
     exists values,
       ConvertIotaOp_matchAndRewrite op rewriter =
         Done (matchSuccess,
               replaceOpWithNewOp rewriter (xla_hlo_IotaOp op)
                 (ConstantOp {| dense_type := output_type;
                                dense_values := values |})) /\
       computed_stride output_type dim = Done (trailing_product shape dim) /\
       Z.of_nat (List.length values) = product shape /\
       forall k, 0 <= k < product shape ->
         exists a,
           nth_error values (Z.to_nat k) = Some a /\
           BitWidth a = Z.pos w /\
           VAL a = iota_value shape dim k mod 2 ^ Z.pos w /\
           iota_value shape dim k = coordinate shape dim k /\
           (dim_size shape dim <= 2 ^ Z.pos w ->
            VAL a = coordinate shape dim k)) /\
  (forall (w : positive) (rewriter : PatternRewriter),
     2 <= Z.pos w ->
     exists values,
       ConvertIotaOp_matchAndRewrite (iota (tensor (IntegerType w) [2; 3]) 1)
         rewriter =
         Done (matchSuccess,
               replaceOpWithNewOp rewriter
                 (xla_hlo_IotaOp (iota (tensor (IntegerType w) [2; 3]) 1))
                 (ConstantOp {| dense_type := tensor (IntegerType w) [2; 3];
                                dense_values := values |})) /\
       map VAL values = [0; 1; 2; 0; 1; 2]) /\
  (forall (w : positive) (rewriter : PatternRewriter),
     2 <= Z.pos w ->
     exists values,
       ConvertIotaOp_matchAndRewrite (iota (tensor (IntegerType w) [2; 3]) 0)
         rewriter =
         Done (matchSuccess,
               replaceOpWithNewOp rewriter
                 (xla_hlo_IotaOp (iota (tensor (IntegerType w) [2; 3]) 0))
                 (ConstantOp {| dense_type := tensor (IntegerType w) [2; 3];
                                dense_values := values |})) /\
       map VAL values = [0; 0; 0; 1; 1; 1]).
Proof.
  split; [| split].
  - intros op rewriter w output_type shape dim Hkind Hstatic Hdim Hpos Hcount.
    pose proof (static_int64_nonneg _ Hstatic) as Hnn.
    pose proof (dim_size_pos _ _ Hdim Hpos) as Hm.
    pose proof (dim_size_bound _ _ _ Hdim Hstatic) as Hmax.
    exists (iota_values (Z.pos w) shape dim).
    split; [exact (proj2 (proj2 (ConvertIotaOp_result op rewriter w
                                   Hkind Hnn Hdim Hpos Hcount)))|].
    split; [exact (computed_stride_positive output_type dim Hnn Hdim Hpos
                     (int_count_fits_int64 _ Hcount))|].
    split; [exact (iota_values_length _ _ _ Hnn)|].
    intros k Hk.
    pose proof (iota_value_range shape dim k Hm) as Hrange.
    pose proof (iota_value_coordinate shape dim k Hnn Hdim Hk) as Hcoord.
    assert (Hval : VAL (APInt_of (Z.pos w) (iota_value shape dim k)) =
                   iota_value shape dim k mod 2 ^ Z.pos w)
      by (apply APInt_of_VAL; lia).
    eexists. split; [exact (iota_values_nth _ _ _ _ Hk)|].
    split; [reflexivity|].
    split; [exact Hval|]. split; [exact Hcoord|].
    intros Hfit. rewrite Hval, <- Hcoord. apply Z.mod_small. lia.
  - intros w rewriter Hw.
    apply iota_2x3; [exact Hw | lia | reflexivity |].
    repeat constructor; lia.
  - intros w rewriter Hw.
    apply iota_2x3; [exact Hw | lia | reflexivity |].
    repeat constructor; lia.
Qed.

Lemma iota_row_major_values_witness :
  (exists values,
     ConvertIotaOp_matchAndRewrite (iota (tensor i32 [2; 3]) 1) [] =
       Done (matchSuccess,
             [(xla_hlo_IotaOp (iota (tensor i32 [2; 3]) 1),
               ConstantOp {| dense_type := tensor i32 [2; 3];
                             dense_values := values |})]) /\
     Z.of_nat (List.length values) = 6) /\
  (exists values,
     ConvertIotaOp_matchAndRewrite (iota (tensor i32 [2; 3]) 1) [] =
       Done (matchSuccess,
             [(xla_hlo_IotaOp (iota (tensor i32 [2; 3]) 1),
               ConstantOp {| dense_type := tensor i32 [2; 3];
                             dense_values := values |})]) /\
     map VAL values = [0; 1; 2; 0; 1; 2]) /\
  (exists values,
     ConvertIotaOp_matchAndRewrite (iota (tensor i32 [2; 3]) 0) [] =
       Done (matchSuccess,
             [(xla_hlo_IotaOp (iota (tensor i32 [2; 3]) 0),
               ConstantOp {| dense_type := tensor i32 [2; 3];
                             dense_values := values |})]) /\
     map VAL values = [0; 0; 0; 1; 1; 1]).
Proof.
  destruct iota_row_major_values as (Hgeneral & Hdim1 & Hdim0).
  split; [| split].
  - destruct (Hgeneral (iota (tensor i32 [2; 3]) 1) [] 32%positive eq_refl
                ltac:(simpl; repeat constructor; unfold INT64_MAX; lia)
                ltac:(simpl; lia)
                ltac:(simpl; repeat constructor; lia)
                ltac:(vm_compute; discriminate))
      as (values & Hrun & _ & Hlen & _).
    exists values. split; [exact Hrun | exact Hlen].
  - exact (Hdim1 32%positive [] ltac:(lia)).
  - exact (Hdim0 32%positive [] ltac:(lia)).
Defined.

(** * Further properties of the patterns *)

(** ** What the comparison patterns answer, case by case *)

Lemma CompareIConvert_unfold (op : CompareOp) (rewriter : PatternRewriter) :
  CompareIConvert_matchAndRewrite op rewriter =
    if shape_ne (getShape (getType (lhs op))) (getShape (getType (rhs op)))
    then Done (matchFailure, rewriter)
    else if negb (isa_IntegerType (getElementType (getType (lhs op))))
            || negb (isa_IntegerType (getElementType (getType (rhs op))))
    then Done (matchFailure, rewriter)
    else match integer_switch (comparison_direction op) with
         | None => Done (matchFailure, rewriter)
         | Some p =>
             Done (matchSuccess,
                   replaceOpWithNewOp rewriter (xla_hlo_CompareOp op)
                     (CmpIOp p (lhs op) (rhs op)))
         end.
Proof. reflexivity. Qed.

Lemma CompareFConvert_unfold (op : CompareOp) (rewriter : PatternRewriter) :
  CompareFConvert_matchAndRewrite op rewriter =
    if shape_ne (getShape (getType (lhs op))) (getShape (getType (rhs op)))
    then Done (matchFailure, rewriter)
    else if negb (isa_FloatType (getElementType (getType (lhs op))))
            || negb (isa_FloatType (getElementType (getType (rhs op))))
    then Done (matchFailure, rewriter)
    else if CmpFPredicate.eqb (float_switch (comparison_direction op))
              CmpFPredicate.NumPredicates
    then Done (matchFailure, rewriter)
    else Done (matchSuccess,
               replaceOpWithNewOp rewriter (xla_hlo_CompareOp op)
                 (CmpFOp (float_switch (comparison_direction op))
                    (lhs op) (rhs op))).
Proof. reflexivity. Qed.

Lemma shape_ne_true_inv (s1 s2 : list Z) : shape_ne s1 s2 = true -> s1 <> s2.
Proof.
  unfold shape_ne. destruct (list_eq_dec Z.eq_dec s1 s2); [discriminate|].
  intros _. assumption.
Qed.

Lemma shape_ne_false_inv (s1 s2 : list Z) : shape_ne s1 s2 = false -> s1 = s2.
Proof.
  unfold shape_ne. destruct (list_eq_dec Z.eq_dec s1 s2); [| discriminate].
  intros _. assumption.
Qed.

Lemma direction_dec (direction : string) :
  {In direction directions} + {~ In direction directions}.
Proof. apply in_dec. exact string_dec. Qed.

Lemma direction_integer_table (direction : string) :
  In direction directions ->
  exists p, In (direction, p) integer_predicate_table.
Proof.
  unfold directions, integer_predicate_table. simpl.
  intros [<- | [<- | [<- | [<- | [<- | [<- | []]]]]]];
    eexists; eauto 10.
Qed.

Lemma table_direction_integer (direction : string) (p : CmpIPredicate.t) :
  In (direction, p) integer_predicate_table -> In direction directions.
Proof.
  unfold directions, integer_predicate_table. simpl.
  intros [E | [E | [E | [E | [E | [E | []]]]]]];
    injection E as <- <-; tauto.
Qed.

Lemma integer_switch_inv (direction : string) (p : CmpIPredicate.t) :
  integer_switch direction = Some p ->
  In (direction, p) integer_predicate_table.
Proof.
  intros H. destruct (direction_dec direction) as [Hin | Hout].
  - destruct (direction_integer_table _ Hin) as [q Hq].
    rewrite (integer_switch_table _ _ Hq) in H. injection H as <-. exact Hq.
  - rewrite (integer_switch_unrecognized _ Hout) in H. discriminate H.
Qed.

Lemma float_switch_recognized (direction : string) :
  In direction directions ->
  In (direction, float_switch direction) float_predicate_table /\
  CmpFPredicate.eqb (float_switch direction) CmpFPredicate.NumPredicates
    = false.
Proof.
  unfold directions, float_predicate_table. simpl.
  intros [<- | [<- | [<- | [<- | [<- | [<- | []]]]]]];
    (split; [vm_compute; tauto | reflexivity]).
Qed.

Lemma float_switch_inv (direction : string) :
  CmpFPredicate.eqb (float_switch direction) CmpFPredicate.NumPredicates
    = false ->
  In direction directions.
Proof.
  intros H. destruct (direction_dec direction) as [Hin | Hout]; [exact Hin|].
  rewrite (float_switch_unrecognized _ Hout) in H. discriminate H.
Qed.

(** X1: what the integer comparison pattern answers, for every comparison
    and every rewriter. It never faults. Either the operand shapes are
    equal, both element kinds are integer kinds (of any widths) and the
    direction is one of the six: then it answers success, having asked for
    exactly one replacement, by the integer compare on the same operands
    whose predicate the table gives, so never an unsigned one. Or one of
    these conditions fails: then it answers no-match and the rewriter is as
    it was. *)
Theorem CompareIConvert_outcome
    (op : CompareOp) (rewriter : PatternRewriter) :
  (getShape (getType (lhs op)) = getShape (getType (rhs op)) /\
   isa_IntegerType (getElementType (getType (lhs op))) = true /\
   isa_IntegerType (getElementType (getType (rhs op))) = true /\
   exists p,
     In (comparison_direction op, p) integer_predicate_table /\
     CompareIConvert_matchAndRewrite op rewriter =
       Done (matchSuccess,
             rewriter ++ [(xla_hlo_CompareOp op,
                           CmpIOp p (lhs op) (rhs op))])) \/
  ((getShape (getType (lhs op)) <> getShape (getType (rhs op)) \/
    isa_IntegerType (getElementType (getType (lhs op))) = false \/
    isa_IntegerType (getElementType (getType (rhs op))) = false \/
    ~ In (comparison_direction op) directions) /\
   CompareIConvert_matchAndRewrite op rewriter = Done (matchFailure, rewriter)).
Proof.
  rewrite CompareIConvert_unfold.
  destruct (shape_ne _ _) eqn:Hs.
  { right. split; [left; apply shape_ne_true_inv; exact Hs | reflexivity]. }
  apply shape_ne_false_inv in Hs.
  destruct (isa_IntegerType (getElementType (getType (lhs op)))) eqn:Hl.
  2:{ right. split; [right; left; reflexivity | reflexivity]. }
  destruct (isa_IntegerType (getElementType (getType (rhs op)))) eqn:Hr.
  2:{ right. split; [right; right; left; reflexivity | reflexivity]. }
  simpl. destruct (integer_switch (comparison_direction op)) as [p |] eqn:Hsw.
  - left. repeat (split; [assumption || reflexivity|]).
    exists p. split; [apply integer_switch_inv; exact Hsw | reflexivity].
  - right. split; [| reflexivity]. right. right. right. intros Hin.
    destruct (direction_integer_table _ Hin) as [q Hq].
    rewrite (integer_switch_table _ _ Hq) in Hsw. discriminate Hsw.
Qed.

(** X2: what the float comparison pattern answers, for every comparison
    and every rewriter. It never faults. Either the operand shapes are
    equal, both element kinds are float kinds and the direction is one of
    the six: then it answers success, having asked for exactly one
    replacement, by the float compare on the same operands whose predicate
    the table gives, so never the sentinel [NumPredicates]. Or one of these
    conditions fails: then it answers no-match and the rewriter is as it
    was. *)
Theorem CompareFConvert_outcome
    (op : CompareOp) (rewriter : PatternRewriter) :
  (getShape (getType (lhs op)) = getShape (getType (rhs op)) /\
   isa_FloatType (getElementType (getType (lhs op))) = true /\
   isa_FloatType (getElementType (getType (rhs op))) = true /\
   exists p,
     In (comparison_direction op, p) float_predicate_table /\
     p <> CmpFPredicate.NumPredicates /\
     CompareFConvert_matchAndRewrite op rewriter =
       Done (matchSuccess,
             rewriter ++ [(xla_hlo_CompareOp op,
                           CmpFOp p (lhs op) (rhs op))])) \/
  ((getShape (getType (lhs op)) <> getShape (getType (rhs op)) \/
    isa_FloatType (getElementType (getType (lhs op))) = false \/
    isa_FloatType (getElementType (getType (rhs op))) = false \/
    ~ In (comparison_direction op) directions) /\
   CompareFConvert_matchAndRewrite op rewriter = Done (matchFailure, rewriter)).
Proof.
  rewrite CompareFConvert_unfold.
  destruct (shape_ne _ _) eqn:Hs.
  { right. split; [left; apply shape_ne_true_inv; exact Hs | reflexivity]. }
  apply shape_ne_false_inv in Hs.
  destruct (isa_FloatType (getElementType (getType (lhs op)))) eqn:Hl.
  2:{ right. split; [right; left; reflexivity | reflexivity]. }
  destruct (isa_FloatType (getElementType (getType (rhs op)))) eqn:Hr.
  2:{ right. split; [right; right; left; reflexivity | reflexivity]. }
  simpl.
  destruct (CmpFPredicate.eqb (float_switch (comparison_direction op))
              CmpFPredicate.NumPredicates) eqn:Hsw.
  - right. split; [| reflexivity]. right. right. right. intros Hin.
    destruct (float_switch_recognized _ Hin) as [_ Hne].
    rewrite Hne in Hsw. discriminate Hsw.
  - left. repeat (split; [assumption || reflexivity|]).
    exists (float_switch (comparison_direction op)).
    pose proof (float_switch_inv _ Hsw) as Hin.
    destruct (float_switch_recognized _ Hin) as [Htab _].
    split; [exact Htab|]. split; [| reflexivity].
    intros E. rewrite E in Hsw. discriminate Hsw.
Qed.

(** X3: no comparison is matched by both comparison patterns: on every
    comparison, whatever the rewriters, the integer pattern or the float
    pattern answers no-match. So the order in which the two are registered
    does not change what the first matching pattern does with an
    operation. *)
Theorem compare_patterns_exclusive :
  (forall (op : CompareOp) (rwI rwF : PatternRewriter),
     CompareIConvert_matchAndRewrite op rwI = Done (matchFailure, rwI) \/
     CompareFConvert_matchAndRewrite op rwF = Done (matchFailure, rwF)) /\
  (forall o : Operation,
     apply_first_match [CompareFConvert; CompareIConvert] o =
     apply_first_match [CompareIConvert; CompareFConvert] o).
Proof.
  split.
  - intros op rwI rwF.
    rewrite CompareIConvert_unfold, CompareFConvert_unfold.
    destruct (shape_ne _ _); [left; reflexivity|].
    destruct (getElementType (getType (lhs op))); simpl;
      (left; reflexivity) || (right; reflexivity).
  - intros [op | | | | |]; try reflexivity.
    cbn [apply_first_match CompareFConvert CompareIConvert].
    rewrite CompareIConvert_unfold, CompareFConvert_unfold.
    destruct (shape_ne _ _); [reflexivity|].
    destruct (getElementType (getType (lhs op)));
      destruct (getElementType (getType (rhs op))); reflexivity.
Qed.

(** X4: a comparison whose operands are not both of integer kind and not
    both of float kind (mixed kinds, index or complex elements) is matched
    by neither comparison pattern, whatever its shapes and direction, and
    by no hand-written pattern. *)
Theorem compare_kind_mismatch
    (op : CompareOp) (rewriter : PatternRewriter) :
  isa_IntegerType (getElementType (getType (lhs op))) = false \/
  isa_IntegerType (getElementType (getType (rhs op))) = false ->
  isa_FloatType (getElementType (getType (lhs op))) = false \/
  isa_FloatType (getElementType (getType (rhs op))) = false ->
  CompareIConvert_matchAndRewrite op rewriter = Done (matchFailure, rewriter) /\
  CompareFConvert_matchAndRewrite op rewriter = Done (matchFailure, rewriter) /\
  apply_first_match handwritten_patterns (xla_hlo_CompareOp op) = Done None.
Proof.
  intros HnotI HnotF.
  assert (HI : forall rw,
            CompareIConvert_matchAndRewrite op rw = Done (matchFailure, rw)).
  { intros rw. rewrite CompareIConvert_unfold.
    destruct (shape_ne _ _); [reflexivity|].
    destruct HnotI as [-> | ->]; simpl; [reflexivity|].
    rewrite orb_true_r. reflexivity. }
  assert (HF : forall rw,
            CompareFConvert_matchAndRewrite op rw = Done (matchFailure, rw)).
  { intros rw. rewrite CompareFConvert_unfold.
    destruct (shape_ne _ _); [reflexivity|].
    destruct HnotF as [-> | ->]; simpl; [reflexivity|].
    rewrite orb_true_r. reflexivity. }
  split; [apply HI|]. split; [apply HF|].
  cbn [handwritten_patterns PopulateXlaToStdPatterns app apply_first_match
       CompareFConvert CompareIConvert ConvertIotaOp].
  rewrite HF, HI. reflexivity.
Qed.

Lemma compare_kind_mismatch_witness :
  CompareIConvert_matchAndRewrite
    (compare (arg 0 (tensor i32 [4])) (arg 1 (tensor f32 [4])) "EQ") [] =
    Done (matchFailure, []) /\
  CompareFConvert_matchAndRewrite
    (compare (arg 0 (tensor i32 [4])) (arg 1 (tensor f32 [4])) "EQ") [] =
    Done (matchFailure, []) /\
  apply_first_match handwritten_patterns
    (xla_hlo_CompareOp
       (compare (arg 0 (tensor i32 [4])) (arg 1 (tensor f32 [4])) "EQ")) =
    Done None.
Proof.
  apply (compare_kind_mismatch
           (compare (arg 0 (tensor i32 [4])) (arg 1 (tensor f32 [4])) "EQ") []).
  - right. reflexivity.
  - left. reflexivity.
Defined.

(** ** Patterns and the rewriter *)

Lemma ConvertIotaOp_frame (op : IotaOp) (rewriter : PatternRewriter) :
  ConvertIotaOp_matchAndRewrite op rewriter =
    match ConvertIotaOp_matchAndRewrite op [] with
    | Done (result, log) => Done (result, rewriter ++ log)
    | Abort f => Abort f
    end.
Proof.
  unfold ConvertIotaOp_matchAndRewrite.
  destruct (negb _); [rewrite app_nil_r; reflexivity|].
  destruct (getNumElements _); simpl; [| reflexivity].
  destruct (getDimSize _ _); simpl; [| reflexivity].
  destruct (getIntOrFloatBitWidth _); simpl; [| reflexivity].
  destruct (reserve _); simpl; [| reflexivity].
  destruct (stride_loop _ _ _ _); simpl; [| reflexivity].
  destruct (fill_loop _ _ _ _ _ _ _); simpl; reflexivity.
Qed.

(** X5: the three patterns are functions of the operation alone. What a
    pattern answers on a rewriter that already holds requests is what it
    answers on a fresh rewriter, with the earlier requests kept in front,
    unchanged and in order; a pattern only ever appends. *)
Theorem patterns_only_append (rewriter : PatternRewriter) :
  (forall op : CompareOp,
     CompareIConvert_matchAndRewrite op rewriter =
       match CompareIConvert_matchAndRewrite op [] with
       | Done (result, log) => Done (result, rewriter ++ log)
       | Abort f => Abort f
       end) /\
  (forall op : CompareOp,
     CompareFConvert_matchAndRewrite op rewriter =
       match CompareFConvert_matchAndRewrite op [] with
       | Done (result, log) => Done (result, rewriter ++ log)
       | Abort f => Abort f
       end) /\
  (forall op : IotaOp,
     ConvertIotaOp_matchAndRewrite op rewriter =
       match ConvertIotaOp_matchAndRewrite op [] with
       | Done (result, log) => Done (result, rewriter ++ log)
       | Abort f => Abort f
       end).
Proof.
  split; [| split].
  - intros op. rewrite !CompareIConvert_unfold.
    destruct (shape_ne _ _); [rewrite app_nil_r; reflexivity|].
    destruct (negb _ || negb _); [rewrite app_nil_r; reflexivity|].
    destruct (integer_switch _); [reflexivity|].
    rewrite app_nil_r; reflexivity.
  - intros op. rewrite !CompareFConvert_unfold.
    destruct (shape_ne _ _); [rewrite app_nil_r; reflexivity|].
    destruct (negb _ || negb _); [rewrite app_nil_r; reflexivity|].
    destruct (CmpFPredicate.eqb _ _); [| reflexivity].
    rewrite app_nil_r; reflexivity.
  - intros op. apply ConvertIotaOp_frame.
Qed.

(** ** What the iota pattern answers, case by case *)

Lemma ConvertIotaOp_failure_inv
    (op : IotaOp) (rewriter r : PatternRewriter) :
  ConvertIotaOp_matchAndRewrite op rewriter = Done (matchFailure, r) ->
  isa_IntegerType (getElementType (IotaOp_getType op)) = false /\ r = rewriter.
Proof.
  unfold ConvertIotaOp_matchAndRewrite.
  destruct (isa_IntegerType _); simpl.
  - destruct (getNumElements _); simpl; [| discriminate].
    destruct (getDimSize _ _); simpl; [| discriminate].
    destruct (getIntOrFloatBitWidth _); simpl; [| discriminate].
    destruct (reserve _); simpl; [| discriminate].
    destruct (stride_loop _ _ _ _); simpl; [| discriminate].
    destruct (fill_loop _ _ _ _ _ _ _); simpl; discriminate.
  - intros H. injection H as <-. split; reflexivity.
Qed.

Lemma iota_scalar_bounds (w : positive) (v bound : Z) :
  0 <= v < bound ->
  BitWidth (APInt_of (Z.pos w) v) = Z.pos w /\
  0 <= VAL (APInt_of (Z.pos w) v) < 2 ^ Z.pos w /\
  VAL (APInt_of (Z.pos w) v) < bound.
Proof.
  intros Hv. unfold APInt_of. cbn [BitWidth VAL].
  assert (Hpow : 0 < 2 ^ Z.pos w) by (apply Z.pow_pos_nonneg; lia).
  pose proof (Z.mod_pos_bound v (2 ^ 64) ltac:(lia)) as H64.
  pose proof (Z.mod_le v (2 ^ 64) ltac:(lia) ltac:(lia)) as Hle64.
  pose proof (Z.mod_pos_bound (v mod 2 ^ 64) (2 ^ Z.pos w) Hpow) as Hw.
  pose proof (Z.mod_le (v mod 2 ^ 64) (2 ^ Z.pos w) ltac:(lia) Hpow) as Hlew.
  split; [reflexivity|]. split; lia.
Qed.

(** X6: whenever the iota pattern answers success, for any operation and
    rewriter, it has appended exactly one request: to replace the iota
    itself by a constant of the iota's own result type, with as many
    scalars as the element count the pattern got for the type, each of the
    bitwidth of the element kind, with a stored value below [2^bitwidth]
    and below the size along the iota dimension. *)
Theorem ConvertIotaOp_success_wellformed
    (op : IotaOp) (rewriter r : PatternRewriter) :
  ConvertIotaOp_matchAndRewrite op rewriter = Done (matchSuccess, r) ->
  exists w values,
    getElementType (IotaOp_getType op) = IntegerType w /\
    r = rewriter ++
        [(xla_hlo_IotaOp op,
          ConstantOp {| dense_type := IotaOp_getType op;
                        dense_values := values |})] /\
    getNumElements (IotaOp_getType op) = Done (Z.of_nat (List.length values)) /\
    Forall (fun a =>
              BitWidth a = Z.pos w /\
              0 <= VAL a < 2 ^ Z.pos w /\
              VAL a < dim_size (getShape (IotaOp_getType op))
                        (iota_dimension op))
      values.
Proof.
  intros H.
  destruct (ConvertIotaOp_success_inv _ _ _ H)
    as (w & output_size & s & Hkind & Hstatic & Hcount & Hrange & Hdim
        & Hpos & _ & Hs & Hspos & ->).
  eexists w, _. split; [exact Hkind|]. split; [reflexivity|].
  pose proof (dim_size_pos _ _ Hdim Hpos) as Hm.
  split.
  - unfold fill_values. rewrite length_map, length_seq, Z2Nat.id by lia.
    exact Hcount.
  - apply Forall_forall. intros a Hin. unfold fill_values in Hin.
    apply in_map_iff in Hin. destruct Hin as (j & <- & Hj).
    apply in_seq in Hj. apply iota_scalar_bounds.
    assert (0 < s) by (apply Hspos; lia).
    apply Z.rem_bound_pos; [apply Z.quot_pos; lia | exact Hm].
Qed.

Lemma ConvertIotaOp_success_wellformed_witness :
  exists w values,
    getElementType (tensor i8 [300]) = IntegerType w /\
    getNumElements (tensor i8 [300]) = Done (Z.of_nat (List.length values)) /\
    Forall (fun a => BitWidth a = Z.pos w /\ 0 <= VAL a < 2 ^ Z.pos w /\
                     VAL a < 300) values.
Proof.
  destruct (ConvertIotaOp_success_wellformed (iota (tensor i8 [300]) 0) []
              [(xla_hlo_IotaOp (iota (tensor i8 [300]) 0),
                ConstantOp {| dense_type := tensor i8 [300];
                              dense_values := iota_values 8 [300] 0 |})]
              ltac:(vm_compute; reflexivity))
    as (w & values & Hkind & _ & Hlen & Hall).
  exists w, values. split; [exact Hkind|]. split; [exact Hlen | exact Hall].
Defined.

Lemma forallb_nonneg_false (shape : list Z) :
  ~ Forall (fun d => 0 <= d) shape ->
  forallb (fun d => 0 <=? d) shape = false.
Proof.
  intros H. destruct (forallb (fun d => 0 <=? d) shape) eqn:E; [| reflexivity].
  exfalso. apply H. apply Forall_forall. intros d Hd. apply Z.leb_le.
  exact (proj1 (forallb_forall _ _) E d Hd).
Qed.

(** X7: what decides how the iota pattern ends. A result kind that is not
    an integer kind: no-match, rewriter untouched. An integer kind with a
    size that is negative, or a dimension index outside the shape: an
    assertion of the IR library fails. An integer kind, a static shape and
    a valid index, with a zero size at an index up to the dimension: a
    division by zero. Otherwise the sizes up to the dimension are positive,
    and when the element count fits an [int] the pattern succeeds, with one
    replacement appended, by a constant of as many scalars as the shape has
    elements. *)
Theorem ConvertIotaOp_outcome (op : IotaOp) (rewriter : PatternRewriter) :
  let output_type := IotaOp_getType op in
  let shape := getShape output_type in
  let dim := iota_dimension op in
  (isa_IntegerType (getElementType output_type) = false /\
   ConvertIotaOp_matchAndRewrite op rewriter = Done (matchFailure, rewriter)) \/
  (isa_IntegerType (getElementType output_type) = true /\
   (~ Forall (fun d => 0 <= d) shape \/
    ~ 0 <= dim < Z.of_nat (List.length shape)) /\
   ConvertIotaOp_matchAndRewrite op rewriter = Abort AssertionFailure) \/
  (isa_IntegerType (getElementType output_type) = true /\
   Forall (fun d => 0 <= d) shape /\
   0 <= dim < Z.of_nat (List.length shape) /\
   Exists (fun d => d = 0) (firstn (Z.to_nat dim + 1) shape) /\
   ConvertIotaOp_matchAndRewrite op rewriter = Abort DivisionByZero) \/
  (isa_IntegerType (getElementType output_type) = true /\
   Forall (fun d => 0 <= d) shape /\
   0 <= dim < Z.of_nat (List.length shape) /\
   Forall (fun d => 0 < d) (firstn (Z.to_nat dim + 1) shape) /\
   (product shape <= INT_MAX ->
    exists values,
      Z.of_nat (List.length values) = product shape /\
      ConvertIotaOp_matchAndRewrite op rewriter =
        Done (matchSuccess,
              rewriter ++
              [(xla_hlo_IotaOp op,
                ConstantOp {| dense_type := output_type;
                              dense_values := values |})]))).
Proof.
  intros output_type shape dim.
  destruct (getElementType output_type) as [w | w | e |] eqn:Hkind;
    try (left; split; [reflexivity|];
         unfold ConvertIotaOp_matchAndRewrite; fold output_type;
         rewrite Hkind; reflexivity).
  right.
  destruct (Forall_dec (fun d => 0 <= d) (fun d => Z_le_dec 0 d) shape)
    as [Hstatic | Hdyn].
  2:{ left. split; [reflexivity|]. split; [left; exact Hdyn|].
      rewrite (ConvertIotaOp_integer op rewriter w Hkind).
      unfold getNumElements. fold output_type shape.
      rewrite (forallb_nonneg_false _ Hdyn). reflexivity. }
  destruct (Z_le_dec 0 dim) as [Hlo | Hlo];
    [destruct (Z_lt_dec dim (Z.of_nat (List.length shape))) as [Hhi | Hhi]|].
  2,3: left; (split; [reflexivity|]); (split; [right; lia|]);
       rewrite (ConvertIotaOp_integer op rewriter w Hkind);
       fold output_type dim;
       unfold getNumElements; fold shape;
       rewrite (forallb_nonneg shape Hstatic);
       cbn [exec_bind];
       rewrite (getDimSize_invalid output_type dim) by (fold shape; lia);
       reflexivity.
  right.
  assert (Hdim : 0 <= dim < Z.of_nat (List.length shape)) by lia.
  destruct (Forall_Exists_dec (fun d => 0 < d) (fun d => Z_lt_dec 0 d)
              (firstn (Z.to_nat dim + 1) shape)) as [Hpos | Hnot].
  - right. repeat (split; [reflexivity || assumption|]).
    intros Hcount.
    exists (iota_values (Z.pos w) shape dim).
    split; [exact (iota_values_length _ _ _ Hstatic)|].
    exact (proj2 (proj2 (ConvertIotaOp_result op rewriter w
                           Hkind Hstatic Hdim Hpos Hcount))).
  - left.
    assert (Hz : Exists (fun d => d = 0) (firstn (Z.to_nat dim + 1) shape)).
    { apply Exists_exists in Hnot. destruct Hnot as (d & Hin & Hd).
      apply Exists_exists. exists d. split; [exact Hin|].
      rewrite Forall_forall in Hstatic.
      pose proof (Hstatic d (In_firstn _ _ _ Hin)). lia. }
    repeat (split; [reflexivity || assumption|]).
    exact (proj2 (ConvertIotaOp_zero_size op rewriter w
                    Hkind Hstatic Hdim Hz)).
Qed.

Lemma ConvertIotaOp_outcome_witness :
  exists values,
    Z.of_nat (List.length values) = 6 /\
    ConvertIotaOp_matchAndRewrite (iota (tensor i32 [2; 3]) 0) [] =
      Done (matchSuccess,
            [(xla_hlo_IotaOp (iota (tensor i32 [2; 3]) 0),
              ConstantOp {| dense_type := tensor i32 [2; 3];
                            dense_values := values |})]).
Proof.
  destruct (ConvertIotaOp_outcome (iota (tensor i32 [2; 3]) 0) [])
    as [[Hkind _] | [[_ [_ Hrun]] | [(_ & _ & _ & _ & Hrun)
        | (_ & _ & _ & _ & Hsuccess)]]].
  - discriminate Hkind.
  - vm_compute in Hrun. discriminate Hrun.
  - vm_compute in Hrun. discriminate Hrun.
  - destruct (Hsuccess ltac:(vm_compute; discriminate))
      as (values & Hlen & Hrun).
    exists values. split; [exact Hlen | exact Hrun].
Defined.

(** ** The shape of the iota constant *)

(** X8: an iota of integer kind whose shape has positive sizes up to the
    iota dimension and no elements at all (a zero size after the
    dimension): the stride loop ends with stride 0, the fill loop runs no
    iteration and so never divides by it, and the pattern succeeds with the
    empty constant. *)
Theorem iota_empty_tensor
    (op : IotaOp) (rewriter : PatternRewriter) (w : positive) :
  let output_type := IotaOp_getType op in
  let shape := getShape output_type in
  let dim := iota_dimension op in
  getElementType output_type = IntegerType w ->
  Forall (fun d => 0 <= d) shape ->
  0 <= dim < Z.of_nat (List.length shape) ->
  Forall (fun d => 0 < d) (firstn (Z.to_nat dim + 1) shape) ->
  product shape = 0 ->
  stride_loop output_type (Z.to_nat (dim + 1)) 0 (product shape) = Done 0 /\
  ConvertIotaOp_matchAndRewrite op rewriter =
    Done (matchSuccess,
          rewriter ++
          [(xla_hlo_IotaOp op,
            ConstantOp {| dense_type := output_type; dense_values := [] |})]).
Proof.
  intros output_type shape dim Hkind Hstatic Hdim Hpos Hempty.
  assert (Hcount : product shape <= INT_MAX)
    by (rewrite Hempty; unfold INT_MAX; lia).
  destruct (ConvertIotaOp_result op rewriter w Hkind Hstatic Hdim Hpos Hcount)
    as (Hstride & _ & Hrun).
  fold output_type shape dim in Hstride, Hrun.
  assert (Hzero : trailing_product shape dim = 0).
  { unfold trailing_product.
    rewrite (product_split (Z.to_nat dim + 1) shape) in Hempty.
    pose proof (product_pos _ Hpos). nia. }
  assert (Hnil : iota_values (Z.pos w) shape dim = []).
  { unfold iota_values. rewrite Hempty. reflexivity. }
  rewrite Hzero in Hstride. rewrite Hnil in Hrun.
  split; [exact Hstride | exact Hrun].
Qed.

Lemma iota_empty_tensor_witness :
  stride_loop (tensor i32 [2; 0; 3]) (Z.to_nat (0 + 1)) 0 (product [2; 0; 3]) =
    Done 0 /\
  ConvertIotaOp_matchAndRewrite (iota (tensor i32 [2; 0; 3]) 0) [] =
    Done (matchSuccess,
          [(xla_hlo_IotaOp (iota (tensor i32 [2; 0; 3]) 0),
            ConstantOp {| dense_type := tensor i32 [2; 0; 3];
                          dense_values := [] |})]).
Proof.
  apply (iota_empty_tensor (iota (tensor i32 [2; 0; 3]) 0) [] 32).
  - reflexivity.
  - simpl. repeat constructor; lia.
  - simpl. lia.
  - simpl. repeat constructor; lia.
  - reflexivity.
Defined.

Lemma iota_value_block (shape : list Z) (dim k k' : Z) :
  k / trailing_product shape dim = k' / trailing_product shape dim ->
  iota_value shape dim k = iota_value shape dim k'.
Proof. intros H. unfold iota_value. rewrite H. reflexivity. Qed.

Lemma iota_value_period (shape : list Z) (dim k : Z) :
  0 < trailing_product shape dim ->
  0 < dim_size shape dim ->
  iota_value shape dim
    (k + dim_size shape dim * trailing_product shape dim) =
  iota_value shape dim k.
Proof.
  intros Hs Hm. unfold iota_value.
  rewrite Z.div_add by lia.
  replace (k / trailing_product shape dim + dim_size shape dim)
    with (k / trailing_product shape dim + 1 * dim_size shape dim) by lia.
  rewrite Z.mod_add by lia. reflexivity.
Qed.

(** X9: the constant of the iota pattern, for an element count that fits
    an [int], is made of blocks. Two flat positions in the same run of
    [stride] consecutive positions hold the same scalar, and the scalar at
    a flat position is the one found [shape[dim] * stride] positions later:
    the ramp repeats per outer block. *)
Theorem iota_block_structure
    (op : IotaOp) (rewriter : PatternRewriter) (w : positive) :
  let output_type := IotaOp_getType op in
  let shape := getShape output_type in
  let dim := iota_dimension op in
  getElementType output_type = IntegerType w ->
  Forall (fun d => 0 <= d) shape ->
  0 <= dim < Z.of_nat (List.length shape) ->
  Forall (fun d => 0 < d) (firstn (Z.to_nat dim + 1) shape) ->
  product shape <= INT_MAX ->
  exists values,
    ConvertIotaOp_matchAndRewrite op rewriter =
      Done (matchSuccess,
            rewriter ++
            [(xla_hlo_IotaOp op,
              ConstantOp {| dense_type := output_type;
                            dense_values := values |})]) /\
    computed_stride output_type dim = Done (trailing_product shape dim) /\
    (forall k k',
       0 <= k < product shape -> 0 <= k' < product shape ->
       k / trailing_product shape dim = k' / trailing_product shape dim ->
       nth_error values (Z.to_nat k) = nth_error values (Z.to_nat k')) /\
    (forall k,
       0 <= k ->
       k + dim_size shape dim * trailing_product shape dim < product shape ->
       nth_error values
         (Z.to_nat (k + dim_size shape dim * trailing_product shape dim)) =
       nth_error values (Z.to_nat k)).
Proof.
  intros output_type shape dim Hkind Hstatic Hdim Hpos Hcount.
  exists (iota_values (Z.pos w) shape dim).
  split; [exact (proj2 (proj2 (ConvertIotaOp_result op rewriter w
                                 Hkind Hstatic Hdim Hpos Hcount)))|].
  split; [exact (computed_stride_positive output_type dim Hstatic Hdim Hpos
                   (int_count_fits_int64 _ Hcount))|].
  pose proof (dim_size_pos _ _ Hdim Hpos) as Hm.
  split.
  - intros k k' Hk Hk' Hblock.
    rewrite !iota_values_nth by assumption.
    rewrite (iota_value_block _ _ _ _ Hblock). reflexivity.
  - intros k Hk Hlater.
    assert (Htot : 0 < product shape).
    { pose proof (product_nonneg _ Hstatic).
      destruct (Z.eq_dec (product shape) 0) as [E | E]; [| lia].
      exfalso. rewrite E in Hlater.
      assert (trailing_product shape dim = 0) as Hz.
      { unfold trailing_product.
        rewrite (product_split (Z.to_nat dim + 1) shape) in E.
        pose proof (product_pos _ Hpos). nia. }
      rewrite Hz in Hlater. lia. }
    pose proof (trailing_product_pos _ _ Hstatic Hpos Htot) as Hs.
    rewrite !iota_values_nth by nia.
    rewrite iota_value_period by assumption. reflexivity.
Qed.

Lemma iota_block_structure_witness :
  exists values,
    ConvertIotaOp_matchAndRewrite (iota (tensor i32 [2; 3; 4]) 1) [] =
      Done (matchSuccess,
            [(xla_hlo_IotaOp (iota (tensor i32 [2; 3; 4]) 1),
              ConstantOp {| dense_type := tensor i32 [2; 3; 4];
                            dense_values := values |})]) /\
    nth_error values 5 = nth_error values 7 /\
    nth_error values 17 = nth_error values 5.
Proof.
  destruct (iota_block_structure (iota (tensor i32 [2; 3; 4]) 1) [] 32 eq_refl
              ltac:(simpl; repeat constructor; lia)
              ltac:(simpl; lia)
              ltac:(simpl; repeat constructor; lia)
              ltac:(vm_compute; discriminate))
    as (values & Hrun & _ & Hblock & Hperiod).
  exists values. split; [exact Hrun|]. split.
  - exact (Hblock 5 7 ltac:(vm_compute; split; [discriminate | reflexivity])
             ltac:(vm_compute; split; [discriminate | reflexivity]) eq_refl).
  - exact (Hperiod 5 ltac:(lia) ltac:(vm_compute; reflexivity)).
Defined.

Lemma iota_value_rank1 (n k : Z) :
  0 <= k < n -> iota_value [n] 0 k = k.
Proof.
  intros Hk. unfold iota_value, trailing_product, dim_size. simpl.
  unfold product. simpl. rewrite Z.div_1_r. apply Z.mod_small. exact Hk.
Qed.

(** X10: the iota of a one-dimensional tensor of [n] elements, [n] at most
    [INT_MAX], of an integer kind of width [w] is the ramp 0, 1, ..., n-1
    with every entry reduced modulo [2^w]; when [n <= 2^w] it is the ramp
    itself. *)
Theorem iota_rank1_ramp
    (op : IotaOp) (rewriter : PatternRewriter) (w : positive) (n : Z) :
  getElementType (IotaOp_getType op) = IntegerType w ->
  getShape (IotaOp_getType op) = [n] ->
  iota_dimension op = 0 ->
  0 < n <= INT_MAX ->
  exists values,
    ConvertIotaOp_matchAndRewrite op rewriter =
      Done (matchSuccess,
            rewriter ++
            [(xla_hlo_IotaOp op,
              ConstantOp {| dense_type := IotaOp_getType op;
                            dense_values := values |})]) /\
    map VAL values =
      map (fun j => Z.of_nat j mod 2 ^ Z.pos w) (seq 0 (Z.to_nat n)) /\
    (n <= 2 ^ Z.pos w -> map VAL values = map Z.of_nat (seq 0 (Z.to_nat n))).
Proof.
  intros Hkind Hshape Hdim Hn.
  exists (iota_values (Z.pos w) [n] 0).
  assert (Hrun : ConvertIotaOp_matchAndRewrite op rewriter =
            Done (matchSuccess,
                  rewriter ++
                  [(xla_hlo_IotaOp op,
                    ConstantOp {| dense_type := IotaOp_getType op;
                                  dense_values := iota_values (Z.pos w) [n] 0 |})])).
  { rewrite <- Hshape, <- Hdim.
    apply (ConvertIotaOp_result op rewriter w Hkind);
      rewrite ?Hshape, ?Hdim; rewrite ?product_singleton;
      simpl; try lia; repeat constructor; lia. }
  assert (Hvals : map VAL (iota_values (Z.pos w) [n] 0) =
            map (fun j => Z.of_nat j mod 2 ^ Z.pos w) (seq 0 (Z.to_nat n))).
  { rewrite iota_values_VAL
      by (unfold dim_size; simpl; unfold INT_MAX, INT64_MAX in *; lia).
    replace (product [n]) with n by (symmetry; apply product_singleton).
    apply map_ext_in. intros j Hj. apply in_seq in Hj.
    rewrite iota_value_rank1 by lia. reflexivity. }
  split; [exact Hrun|]. split; [exact Hvals|].
  intros Hfit. rewrite Hvals. apply map_ext_in. intros j Hj.
  apply in_seq in Hj. apply Z.mod_small. lia.
Qed.

Lemma iota_rank1_ramp_witness :
  exists values,
    ConvertIotaOp_matchAndRewrite (iota (tensor i8 [5]) 0) [] =
      Done (matchSuccess,
            [(xla_hlo_IotaOp (iota (tensor i8 [5]) 0),
              ConstantOp {| dense_type := tensor i8 [5];
                            dense_values := values |})]) /\
    map VAL values = [0; 1; 2; 3; 4].
Proof.
  destruct (iota_rank1_ramp (iota (tensor i8 [5]) 0) [] 8 5 eq_refl eq_refl
              eq_refl ltac:(unfold INT_MAX; lia))
    as (values & Hrun & _ & Hramp).
  exists values. split; [exact Hrun|].
  exact (Hramp ltac:(vm_compute; discriminate)).
Defined.

(** X11: when the size along the iota dimension fits in the element kind
    ([shape[dim] <= 2^w]), the tensor is not empty and its element count
    fits an [int], every index 0, 1, ..., shape[dim]-1 occurs among the
    scalars of the constant: the index [c] is stored at flat position
    [c * stride], [stride] being the stride the pattern computes. *)
Theorem iota_covers_dimension
    (op : IotaOp) (rewriter : PatternRewriter) (w : positive) :
  let output_type := IotaOp_getType op in
  let shape := getShape output_type in
  let dim := iota_dimension op in
  getElementType output_type = IntegerType w ->
  static_int64_shape shape ->
  0 <= dim < Z.of_nat (List.length shape) ->
  0 < product shape <= INT_MAX ->
  dim_size shape dim <= 2 ^ Z.pos w ->
  exists values,
    ConvertIotaOp_matchAndRewrite op rewriter =
      Done (matchSuccess,
            rewriter ++
            [(xla_hlo_IotaOp op,
              ConstantOp {| dense_type := output_type;
                            dense_values := values |})]) /\
    computed_stride output_type dim = Done (trailing_product shape dim) /\
    forall c, 0 <= c < dim_size shape dim ->
      0 <= c * trailing_product shape dim < product shape /\
      exists a,
        nth_error values (Z.to_nat (c * trailing_product shape dim)) = Some a /\
        VAL a = c.
Proof.
  intros output_type shape dim Hkind Hstatic Hdim [Htot Hcount] Hfit.
  pose proof (static_int64_nonneg _ Hstatic) as Hnn.
  assert (Hpos : Forall (fun d => 0 < d) (firstn (Z.to_nat dim + 1) shape)).
  { pose proof (product_pos_inv _ Hnn Htot) as Hall.
    rewrite <- (firstn_skipn (Z.to_nat dim + 1) shape) in Hall.
    apply Forall_app in Hall. tauto. }
  pose proof (dim_size_bound _ _ _ Hdim Hstatic) as Hmax.
  pose proof (trailing_product_pos _ _ Hnn Hpos Htot) as Hs.
  pose proof (dim_block_fits _ _ Hdim Hnn Hpos) as Hblock.
  exists (iota_values (Z.pos w) shape dim).
  split; [exact (proj2 (proj2 (ConvertIotaOp_result op rewriter w
                                 Hkind Hnn Hdim Hpos Hcount)))|].
  split; [exact (computed_stride_positive output_type dim Hnn Hdim Hpos
                   (int_count_fits_int64 _ Hcount))|].
  intros c Hc.
  assert (Hk : 0 <= c * trailing_product shape dim < product shape) by nia.
  split; [exact Hk|].
  eexists. split; [exact (iota_values_nth _ _ _ _ Hk)|].
  assert (Hiv : iota_value shape dim (c * trailing_product shape dim) = c).
  { unfold iota_value. rewrite Z.div_mul by lia. apply Z.mod_small. exact Hc. }
  rewrite Hiv, APInt_of_VAL by lia. apply Z.mod_small. lia.
Qed.

Lemma iota_covers_dimension_witness :
  exists values a,
    ConvertIotaOp_matchAndRewrite (iota (tensor i8 [2; 3; 4]) 1) [] =
      Done (matchSuccess,
            [(xla_hlo_IotaOp (iota (tensor i8 [2; 3; 4]) 1),
              ConstantOp {| dense_type := tensor i8 [2; 3; 4];
                            dense_values := values |})]) /\
    nth_error values 8 = Some a /\ VAL a = 2.
Proof.
  destruct (iota_covers_dimension (iota (tensor i8 [2; 3; 4]) 1) [] 8 eq_refl
              ltac:(simpl; repeat constructor; unfold INT64_MAX; lia)
              ltac:(simpl; lia)
              ltac:(vm_compute; split; [reflexivity | discriminate])
              ltac:(vm_compute; discriminate))
    as (values & Hrun & _ & Hcover).
  destruct (Hcover 2 ltac:(vm_compute; split; [discriminate | reflexivity]))
    as (_ & a & Hnth & Ha).
  exists values, a. split; [exact Hrun|]. split; [exact Hnth | exact Ha].
Defined.

Lemma iota_values_determined (bitwidth : Z) (s1 s2 : list Z) (d1 d2 : Z) :
  product s1 = product s2 ->
  trailing_product s1 d1 = trailing_product s2 d2 ->
  dim_size s1 d1 = dim_size s2 d2 ->
  iota_values bitwidth s1 d1 = iota_values bitwidth s2 d2.
Proof.
  intros Hp Ht Hd. unfold iota_values, iota_value.
  rewrite Hp, Ht, Hd. reflexivity.
Qed.

Lemma firstn_middle (pre post : list Z) (d : Z) :
  firstn (List.length pre + 1) (pre ++ d :: post) = pre ++ [d].
Proof.
  induction pre as [| a pre IH]; simpl; [reflexivity|].
  f_equal. exact IH.
Qed.

Lemma skipn_middle (pre post : list Z) (d : Z) :
  skipn (List.length pre + 1) (pre ++ d :: post) = post.
Proof.
  induction pre as [| a pre IH]; simpl; [reflexivity|]. exact IH.
Qed.

(** X12: the scalars of an iota depend on its shape only through the
    number of elements before, along and after the iota dimension. When
    the element count fits an [int], the iota of shape [pre ++ d :: post]
    along the dimension of [d] has the same flat sequence of scalars as
    the iota of the three-dimensional shape
    [product pre; d; product post] along dimension 1. *)
Theorem iota_collapse_dimensions
    (w : positive) (pre post : list Z) (d : Z) (rewriter : PatternRewriter) :
  Forall (fun x => 0 < x) pre ->
  0 < d ->
  Forall (fun x => 0 <= x) post ->
  product (pre ++ d :: post) <= INT_MAX ->
  let op := iota (tensor (IntegerType w) (pre ++ d :: post))
              (Z.of_nat (List.length pre)) in
  let op3 := iota (tensor (IntegerType w) [product pre; d; product post]) 1 in
  exists values,
    ConvertIotaOp_matchAndRewrite op rewriter =
      Done (matchSuccess,
            rewriter ++
            [(xla_hlo_IotaOp op,
              ConstantOp {| dense_type := IotaOp_getType op;
                            dense_values := values |})]) /\
    ConvertIotaOp_matchAndRewrite op3 rewriter =
      Done (matchSuccess,
            rewriter ++
            [(xla_hlo_IotaOp op3,
              ConstantOp {| dense_type := IotaOp_getType op3;
                            dense_values := values |})]).
Proof.
  intros Hpre Hd Hpost Hcount op op3.
  pose proof (product_pos _ Hpre) as HP.
  pose proof (product_nonneg _ Hpost) as HR.
  assert (Hcount3 : product [product pre; d; product post] <= INT_MAX).
  { rewrite product_app in Hcount. unfold product in *. simpl in *. lia. }
  exists (iota_values (Z.pos w) (pre ++ d :: post)
            (Z.of_nat (List.length pre))).
  split.
  - refine (proj2 (proj2 (ConvertIotaOp_result op rewriter w eq_refl
                            _ _ _ Hcount))); simpl.
    + apply Forall_app. split.
      * revert Hpre. apply Forall_impl. intros; lia.
      * constructor; [lia | exact Hpost].
    + rewrite length_app. simpl. lia.
    + rewrite Nat2Z.id, firstn_middle. apply Forall_app. split;
        [exact Hpre | repeat constructor; exact Hd].
  - rewrite (iota_values_determined (Z.pos w) (pre ++ d :: post)
               [product pre; d; product post]
               (Z.of_nat (List.length pre)) 1).
    + refine (proj2 (proj2 (ConvertIotaOp_result op3 rewriter w eq_refl
                              _ _ _ Hcount3))); simpl.
      * repeat constructor; lia.
      * lia.
      * repeat constructor; lia.
    + rewrite product_app. unfold product. simpl. ring.
    + unfold trailing_product. rewrite Nat2Z.id, skipn_middle.
      change (skipn (Z.to_nat 1 + 1) [product pre; d; product post])
        with [product post].
      rewrite product_singleton. reflexivity.
    + unfold dim_size. rewrite Nat2Z.id, nth_middle. reflexivity.
Qed.

Lemma iota_collapse_dimensions_witness :
  exists values,
    ConvertIotaOp_matchAndRewrite (iota (tensor i32 [2; 3; 4; 5; 6]) 2) [] =
      Done (matchSuccess,
            [(xla_hlo_IotaOp (iota (tensor i32 [2; 3; 4; 5; 6]) 2),
              ConstantOp {| dense_type := tensor i32 [2; 3; 4; 5; 6];
                            dense_values := values |})]) /\
    ConvertIotaOp_matchAndRewrite (iota (tensor i32 [6; 4; 30]) 1) [] =
      Done (matchSuccess,
            [(xla_hlo_IotaOp (iota (tensor i32 [6; 4; 30]) 1),
              ConstantOp {| dense_type := tensor i32 [6; 4; 30];
                            dense_values := values |})]).
Proof.
  exact (iota_collapse_dimensions 32 [2; 3] [5; 6] 4 []
           ltac:(repeat constructor; lia) ltac:(lia)
           ltac:(repeat constructor; lia)
           ltac:(vm_compute; discriminate)).
Defined.

(** ** The pass with the hand-written patterns *)

Lemma apply_first_match_handwritten (o : Operation) :
  apply_first_match handwritten_patterns o =
    match o with
    | xla_hlo_CompareOp c =>
        match CompareFConvert_matchAndRewrite c [] with
        | Abort f => Abort f
        | Done (matchSuccess, rw) => Done (Some (map snd rw))
        | Done (matchFailure, _) =>
            match CompareIConvert_matchAndRewrite c [] with
            | Abort f => Abort f
            | Done (matchSuccess, rw) => Done (Some (map snd rw))
            | Done (matchFailure, _) => Done None
            end
        end
    | xla_hlo_IotaOp i =>
        match ConvertIotaOp_matchAndRewrite i [] with
        | Abort f => Abort f
        | Done (matchSuccess, rw) => Done (Some (map snd rw))
        | Done (matchFailure, _) => Done None
        end
    | _ => Done None
    end.
Proof. destruct o; reflexivity. Qed.

Lemma not_a_target_unmatched (o : Operation) :
  not_a_target o ->
  apply_first_match handwritten_patterns o = Done None /\
  forall p rw, In p handwritten_patterns -> p o rw = Done (matchFailure, rw).
Proof.
  intros H. split.
  - destruct o; try reflexivity; destruct H.
  - intros p rw [<- | [<- | [<- | []]]]; destruct o; try reflexivity;
      destruct H.
Qed.

Lemma handwritten_replacement (p : Pattern) (op : Operation)
    (r : PatternRewriter) :
  In p handwritten_patterns ->
  p op [] = Done (matchSuccess, r) ->
  exists new, r = [(op, new)] /\ not_a_target new.
Proof.
  intros [<- | [<- | [<- | []]]] H; destruct op as [c | i | | | |];
    try discriminate H; cbn [CompareFConvert CompareIConvert ConvertIotaOp] in H.
  - rewrite CompareFConvert_unfold in H.
    destruct (shape_ne _ _); [discriminate H|].
    destruct (negb _ || negb _); [discriminate H|].
    destruct (CmpFPredicate.eqb _ _); [discriminate H|].
    injection H as <-. eexists. split; [reflexivity | exact I].
  - rewrite CompareIConvert_unfold in H.
    destruct (shape_ne _ _); [discriminate H|].
    destruct (negb _ || negb _); [discriminate H|].
    destruct (integer_switch _); [| discriminate H].
    injection H as <-. eexists. split; [reflexivity | exact I].
  - destruct (ConvertIotaOp_success_inv _ _ _ H)
      as (w & n & st & _ & _ & _ & _ & _ & _ & _ & _ & _ & ->).
    eexists. split; [reflexivity | exact I].
Qed.

Lemma handwritten_match_single (o : Operation) (l : list Operation) :
  apply_first_match handwritten_patterns o = Done (Some l) ->
  exists new, l = [new] /\ not_a_target new.
Proof.
  intros H.
  cbn [handwritten_patterns PopulateXlaToStdPatterns app apply_first_match] in H.
  destruct (CompareFConvert o []) as [[[|] rF] | f] eqn:EF; try discriminate H.
  2:{ injection H as <-.
      destruct (handwritten_replacement CompareFConvert o rF
                  ltac:(simpl; tauto) EF) as (new & -> & Hnew).
      exists new. split; [reflexivity | exact Hnew]. }
  destruct (CompareIConvert o []) as [[[|] rI] | f] eqn:EI; try discriminate H.
  2:{ injection H as <-.
      destruct (handwritten_replacement CompareIConvert o rI
                  ltac:(simpl; tauto) EI) as (new & -> & Hnew).
      exists new. split; [reflexivity | exact Hnew]. }
  destruct (ConvertIotaOp o []) as [[[|] rO] | f] eqn:EO; try discriminate H.
  injection H as <-.
  destruct (handwritten_replacement ConvertIotaOp o rO
              ltac:(simpl; tauto) EO) as (new & -> & Hnew).
  exists new. split; [reflexivity | exact Hnew].
Qed.

(** X13: when one of the three hand-written patterns matches an operation
    offered on a fresh rewriter, it asks for exactly one replacement, of
    the operation offered, by one operation of the Standard dialect; and no
    hand-written pattern matches that new operation, so a replacement is
    never replaced again. *)
Theorem handwritten_patterns_do_not_rematch
    (p : Pattern) (op : Operation) (r : PatternRewriter) :
  In p handwritten_patterns ->
  p op [] = Done (matchSuccess, r) ->
  exists new,
    r = [(op, new)] /\
    apply_first_match handwritten_patterns new = Done None /\
    forall q rw, In q handwritten_patterns ->
      q new rw = Done (matchFailure, rw).
Proof.
  intros Hp H.
  destruct (handwritten_replacement p op r Hp H) as (new & -> & Hnew).
  exists new. split; [reflexivity|].
  exact (not_a_target_unmatched new Hnew).
Qed.

Lemma handwritten_patterns_do_not_rematch_witness :
  exists new,
    apply_first_match handwritten_patterns new = Done None /\
    CompareIConvert new [] = Done (matchFailure, []).
Proof.
  destruct (handwritten_patterns_do_not_rematch CompareIConvert
              (xla_hlo_CompareOp
                 (compare (arg 0 (tensor i32 [2])) (arg 1 (tensor i32 [2])) "GE"))
              [(xla_hlo_CompareOp
                  (compare (arg 0 (tensor i32 [2])) (arg 1 (tensor i32 [2])) "GE"),
                CmpIOp CmpIPredicate.sge
                  (arg 0 (tensor i32 [2])) (arg 1 (tensor i32 [2])))]
              ltac:(simpl; tauto) eq_refl)
    as (new & _ & Hnone & Hall).
  exists new. split; [exact Hnone|].
  exact (Hall CompareIConvert [] ltac:(simpl; tauto)).
Defined.

Lemma sweep_unmatched_identity (patterns : list Pattern)
    (body : list Operation) :
  Forall (fun o => apply_first_match patterns o = Done None) body ->
  sweep patterns body = Done (body, O).
Proof.
  induction 1 as [| o body Ho _ IH]; [reflexivity|].
  rewrite sweep_cons, Ho, IH. reflexivity.
Qed.

Lemma sweep_zero_unmatched (patterns : list Pattern) (body : list Operation) :
  forall r, sweep patterns body = Done r -> snd r = O ->
  Forall (fun o => apply_first_match patterns o = Done None) body.
Proof.
  induction body as [| op rest IH]; intros r H Hz; [constructor|].
  rewrite sweep_cons in H.
  destruct (apply_first_match patterns op) as [[new_ops |] | f] eqn:E;
    simpl in H; try discriminate H;
    destruct (sweep patterns rest) as [tail | f]; simpl in H;
    try discriminate H; injection H as <-; simpl in Hz.
  - discriminate Hz.
  - constructor; [exact E | exact (IH tail eq_refl Hz)].
Qed.

Lemma sweep_handwritten_result (body : list Operation) :
  forall legalized n,
    sweep handwritten_patterns body = Done (legalized, n) ->
    List.length legalized = List.length body /\
    (n <= List.length body)%nat /\
    Forall (fun o => apply_first_match handwritten_patterns o = Done None)
      legalized.
Proof.
  induction body as [| op rest IH]; intros legalized n H.
  - simpl in H. injection H as <- <-. repeat split; [lia | constructor].
  - rewrite sweep_cons in H.
    destruct (apply_first_match handwritten_patterns op) as [res | f] eqn:E;
      simpl in H; [| discriminate H].
    destruct (sweep handwritten_patterns rest) as [[tail m] | f] eqn:Et;
      simpl in H; [| discriminate H].
    destruct (IH tail m eq_refl) as (Hlen & Hn & Hall).
    destruct res as [new_ops |]; injection H as <- <-.
    + destruct (handwritten_match_single _ _ E) as (new & -> & Hnew).
      simpl. repeat split; [lia | lia |].
      constructor; [exact (proj1 (not_a_target_unmatched new Hnew)) | exact Hall].
    + simpl. repeat split; [lia | lia |].
      constructor; [exact E | exact Hall].
Qed.

Lemma applyPatternsGreedily_step (k : nat) (body : list Operation)
    (patterns : list Pattern) (replaced : nat) :
  applyPatternsGreedily (S k) body patterns replaced =
    (r <- sweep patterns body ;;
     match snd r with
     | O => Done {| final_state := converged; final_body := fst r;
                    replacements := replaced |}
     | S _ => applyPatternsGreedily k (fst r) patterns
                (replaced + snd r)%nat
     end)%exec.
Proof. reflexivity. Qed.

(** X14: with the hand-written patterns alone and a ceiling of at least
    two sweeps, the pass is its first sweep: it faults exactly when that
    sweep does (an iota pattern that faults), and otherwise ends converged
    with the body the first sweep left and that sweep's number of
    replacements. The sweep replaces operations one for one, so the body
    keeps its length, and nothing left in it is matched by a hand-written
    pattern. *)
Theorem runOnFunction_handwritten_one_sweep
    (max_sweeps : nat) (body : list Operation) :
  (2 <= max_sweeps)%nat ->
  runOnFunction [] max_sweeps body =
    match sweep handwritten_patterns body with
    | Done (legalized, n) =>
        Done {| final_state := converged; final_body := legalized;
                replacements := n |}
    | Abort f => Abort f
    end /\
  forall legalized n,
    sweep handwritten_patterns body = Done (legalized, n) ->
    List.length legalized = List.length body /\
    (n <= List.length body)%nat /\
    Forall (fun o => apply_first_match handwritten_patterns o = Done None)
      legalized.
Proof.
  intros Hm. split; [| apply sweep_handwritten_result].
  unfold runOnFunction.
  change (PopulateXlaToStdPatterns [] []) with handwritten_patterns.
  destruct max_sweeps as [| [| k]]; try lia.
  rewrite applyPatternsGreedily_step.
  destruct (sweep handwritten_patterns body) as [[legalized n] | f] eqn:E;
    [| reflexivity].
  cbn [exec_bind fst snd]. destruct n as [| n]; [reflexivity|].
  rewrite applyPatternsGreedily_step.
  destruct (sweep_handwritten_result _ _ _ E) as (_ & _ & Hall).
  rewrite (sweep_unmatched_identity _ _ Hall). reflexivity.
Qed.

Lemma runOnFunction_handwritten_one_sweep_witness :
  runOnFunction [] 10 sample_body =
    match sweep handwritten_patterns sample_body with
    | Done (legalized, n) =>
        Done {| final_state := converged; final_body := legalized;
                replacements := n |}
    | Abort f => Abort f
    end.
Proof.
  exact (proj1 (runOnFunction_handwritten_one_sweep 10 sample_body
                  ltac:(lia))).
Defined.

(** ** The pass with generated patterns *)

Lemma apply_first_match_app_full (ps qs : list Pattern) (o : Operation) :
  apply_first_match (ps ++ qs) o =
    match apply_first_match ps o with
    | Done None => apply_first_match qs o
    | answer => answer
    end.
Proof.
  induction ps as [| p ps IH]; [reflexivity|].
  simpl. destruct (p o []) as [[[|] rw] | f]; [exact IH | reflexivity..].
Qed.

(** The registration order of [PopulateXlaToStdPatterns]: the patterns
    already in the list and the generated ones are consulted first; the
    three hand-written patterns see an operation only when none of the
    earlier ones matched it or faulted. *)
Lemma PopulateXlaToStdPatterns_priority
    (generated patterns : list Pattern) (o : Operation) :
  apply_first_match (PopulateXlaToStdPatterns generated patterns) o =
    match apply_first_match (patterns ++ generated) o with
    | Done None => apply_first_match handwritten_patterns o
    | answer => answer
    end.
Proof.
  unfold PopulateXlaToStdPatterns. apply apply_first_match_app_full.
Qed.

Lemma handwritten_unmatched_compare (c : CompareOp) :
  apply_first_match handwritten_patterns (xla_hlo_CompareOp c) = Done None ->
  getShape (getType (lhs c)) <> getShape (getType (rhs c)) \/
  ~ In (comparison_direction c) directions \/
  ((isa_IntegerType (getElementType (getType (lhs c))) = false \/
    isa_IntegerType (getElementType (getType (rhs c))) = false) /\
   (isa_FloatType (getElementType (getType (lhs c))) = false \/
    isa_FloatType (getElementType (getType (rhs c))) = false)).
Proof.
  intros H. rewrite apply_first_match_handwritten in H.
  rewrite CompareFConvert_unfold, CompareIConvert_unfold in H.
  destruct (shape_ne _ _) eqn:Hs; [left; apply shape_ne_true_inv; exact Hs|].
  right.
  destruct (direction_dec (comparison_direction c)) as [Hin | Hout];
    [| left; exact Hout].
  right.
  destruct (float_switch_recognized _ Hin) as [_ HF].
  destruct (direction_integer_table _ Hin) as [p Hp].
  rewrite HF, (integer_switch_table _ _ Hp) in H.
  destruct (isa_IntegerType (getElementType (getType (lhs c))));
    destruct (isa_IntegerType (getElementType (getType (rhs c))));
    destruct (isa_FloatType (getElementType (getType (lhs c))));
    destruct (isa_FloatType (getElementType (getType (rhs c))));
    simpl in H; try discriminate H; split; tauto.
Qed.

Lemma handwritten_unmatched_iota (i : IotaOp) :
  apply_first_match handwritten_patterns (xla_hlo_IotaOp i) = Done None ->
  isa_IntegerType (getElementType (IotaOp_getType i)) = false.
Proof.
  intros H. rewrite apply_first_match_handwritten in H.
  destruct (ConvertIotaOp_matchAndRewrite i []) as [[[|] rw] | f] eqn:E;
    try discriminate H.
  exact (proj1 (ConvertIotaOp_failure_inv _ _ _ E)).
Qed.

(** X15: when the pass has converged, whatever the generated patterns are,
    no pattern of the pass matches any operation left in the body. So every
    comparison left has operands of different shapes, or a direction that
    is none of the six, or element kinds that are neither both integer nor
    both float; and every iota left has a result kind that is not an
    integer kind. *)
Theorem converged_body_is_legalized
    (generated : list Pattern) (max_sweeps : nat)
    (body : list Operation) (r : DriverResult) :
  runOnFunction generated max_sweeps body = Done r ->
  final_state r = converged ->
  Forall (fun o =>
            apply_first_match (PopulateXlaToStdPatterns generated []) o
              = Done None /\
            left_unlegalized o)
    (final_body r).
Proof.
  unfold runOnFunction. intros H Hc.
  pose proof (converged_sweep _ _ _ _ _ H Hc) as Hs.
  pose proof (sweep_zero_unmatched _ _ _ Hs eq_refl) as Hall.
  revert Hall. apply Forall_impl. intros o Ho. split; [exact Ho|].
  unfold PopulateXlaToStdPatterns in Ho.
  rewrite apply_first_match_app_full in Ho.
  destruct (apply_first_match ([] ++ generated) o) as [[l |] | f];
    try discriminate Ho.
  change (apply_first_match handwritten_patterns o = Done None) in Ho.
  destruct o as [c | i | | | |]; try exact I.
  - exact (handwritten_unmatched_compare c Ho).
  - exact (handwritten_unmatched_iota i Ho).
Qed.

Lemma converged_body_is_legalized_witness :
  Forall (fun o =>
            apply_first_match (PopulateXlaToStdPatterns [] []) o = Done None /\
            left_unlegalized o)
    sample_legalized.
Proof.
  exact (converged_body_is_legalized [] 10 sample_body
           {| final_state := converged; final_body := sample_legalized;
              replacements := 3 |}
           ltac:(vm_compute; reflexivity) eq_refl).
Defined.

Lemma sweep_fault (patterns : list Pattern) (o : Operation) (f : Fault)
    (body : list Operation) :
  apply_first_match patterns o = Abort f ->
  In o body ->
  exists f', sweep patterns body = Abort f'.
Proof.
  intros Ho. induction body as [| op rest IH]; intros Hin; [destruct Hin|].
  rewrite sweep_cons.
  destruct Hin as [-> | Hin].
  - rewrite Ho. exists f. reflexivity.
  - destruct (apply_first_match patterns op) as [res | g];
      [| exists g; reflexivity].
    destruct (IH Hin) as [f' ->]. exists f'. reflexivity.
Qed.

(** X16: with the hand-written patterns alone, one iota of integer kind
    with a static shape, a valid dimension index and a zero size at an
    index up to the dimension, anywhere in the function body, makes the
    whole pass end in a fault: no body is produced, whatever else the
    function holds and whatever the sweep ceiling (of at least one). *)
Theorem runOnFunction_zero_size_iota_faults
    (i : IotaOp) (w : positive) (max_sweeps : nat) (body : list Operation) :
  getElementType (IotaOp_getType i) = IntegerType w ->
  Forall (fun d => 0 <= d) (getShape (IotaOp_getType i)) ->
  0 <= iota_dimension i <
    Z.of_nat (List.length (getShape (IotaOp_getType i))) ->
  Exists (fun d => d = 0)
    (firstn (Z.to_nat (iota_dimension i) + 1) (getShape (IotaOp_getType i))) ->
  In (xla_hlo_IotaOp i) body ->
  (1 <= max_sweeps)%nat ->
  apply_first_match handwritten_patterns (xla_hlo_IotaOp i) =
    Abort DivisionByZero /\
  exists f, runOnFunction [] max_sweeps body = Abort f.
Proof.
  intros Hkind Hstatic Hdim Hzero Hin Hm.
  assert (Ho : apply_first_match handwritten_patterns (xla_hlo_IotaOp i) =
               Abort DivisionByZero).
  { rewrite apply_first_match_handwritten.
    rewrite (proj2 (ConvertIotaOp_zero_size i [] w Hkind Hstatic Hdim Hzero)).
    reflexivity. }
  split; [exact Ho|].
  destruct (sweep_fault _ _ _ _ Ho Hin) as [f Hf].
  exists f. unfold runOnFunction.
  change (PopulateXlaToStdPatterns [] []) with handwritten_patterns.
  destruct max_sweeps as [| k]; [lia|].
  rewrite applyPatternsGreedily_step, Hf. reflexivity.
Qed.

Lemma runOnFunction_zero_size_iota_faults_witness :
  exists f,
    runOnFunction [] 10
      [ xla_hlo_CompareOp
          (compare (arg 0 (tensor i32 [2])) (arg 1 (tensor i32 [2])) "EQ");
        xla_hlo_IotaOp (iota (tensor i32 [2; 0; 3]) 1) ] = Abort f.
Proof.
  exact (proj2 (runOnFunction_zero_size_iota_faults
                  (iota (tensor i32 [2; 0; 3]) 1) 32 10
                  [ xla_hlo_CompareOp
                      (compare (arg 0 (tensor i32 [2]))
                         (arg 1 (tensor i32 [2])) "EQ");
                    xla_hlo_IotaOp (iota (tensor i32 [2; 0; 3]) 1) ]
                  eq_refl
                  ltac:(simpl; repeat constructor; lia)
                  ltac:(simpl; lia)
                  ltac:(simpl; right; left; reflexivity)
                  ltac:(simpl; tauto)
                  ltac:(lia))).
Defined.
